(** * CarLink24 vehicle sync: a shallow embedding of [src/sync-vehicles.js]

    The development follows the script from its leaves upwards: string
    primitives of the JavaScript runtime, the MD5 digest behind
    [crypto.createHash('md5')], the helper functions, the translation
    tables, the scraping functions and the main loop.

    Conventions of the embedding.
    - A JavaScript string is a sequence of UTF-16 code units.  The
      development covers the code units below 256 (Basic Latin and Latin-1
      Supplement), one [ascii] per code unit; this range holds the whole
      vocabulary of the translation tables and of the list of makes, and
      [toLowerCase] maps it into itself.
    - A JavaScript number that reaches the code below is the result of
      [parseInt] on a string of digits or an index; it is carried as the
      integer it denotes (exact for every value below 2^53).
    - [null] and [undefined] arguments of the helper functions are [None];
      the helpers only ever test them with [!x]. *)

From Stdlib Require Import ZArith NArith String Ascii List Bool Lia.
From Stdlib Require Import Numbers.DecimalString.
From stdpp Require Import base gmap strings list.

Import ListNotations.
Local Open Scope string_scope.

(** ** Strings of the runtime *)

Module JsString.

(** [String.prototype.toLowerCase] on one code unit below 256: the
    letters A-Z and the capital letters of Latin-1 (U+00C0 to U+00DE
    without the multiplication sign U+00D7) move up by 32. *)
Definition lower_char (c : ascii) : ascii :=
  let n := N_of_ascii c in
  if ((65 <=? n) && (n <=? 90))%N
     || ((192 <=? n) && (n <=? 222) && negb (n =? 215))%N
  then ascii_of_N (n + 32)
  else c.

Fixpoint toLowerCase (s : string) : string :=
  match s with
  | EmptyString => EmptyString
  | String c t => String (lower_char c) (toLowerCase t)
  end.

(** [s.startsWith(p)] *)
Definition startsWith (s p : string) : bool := String.prefix p s.

(** [s.includes(p)]: [p] occurs in [s] at some position. *)
Fixpoint includes (s p : string) : bool :=
  String.prefix p s
  || match s with
     | EmptyString => false
     | String _ t => includes t p
     end.

(** White space of [String.prototype.trim] and of the class [\s], below
    256: tab, line feed, vertical tab, form feed, carriage return, space
    and no-break space. *)
Definition is_space (c : ascii) : bool :=
  let n := N_of_ascii c in
  (((9 <=? n) && (n <=? 13)) || (n =? 32) || (n =? 160))%N.

(** The class [\d]. *)
Definition is_digit (c : ascii) : bool :=
  let n := N_of_ascii c in ((48 <=? n) && (n <=? 57))%N.

Fixpoint trimStart (s : string) : string :=
  match s with
  | String c t => if is_space c then trimStart t else s
  | EmptyString => EmptyString
  end.

Fixpoint trimEnd (s : string) : string :=
  match s with
  | EmptyString => EmptyString
  | String c t =>
      match trimEnd t with
      | EmptyString => if is_space c then EmptyString else String c EmptyString
      | t' => String c t'
      end
  end.

Definition trim (s : string) : string := trimEnd (trimStart s).

(** [s.substring(n)] for [0 <= n]. *)
Fixpoint drop (n : nat) (s : string) : string :=
  match n, s with
  | O, _ => s
  | S n', String _ t => drop n' t
  | S _, EmptyString => EmptyString
  end.

(** [s.substring(0, n)] *)
Fixpoint take (n : nat) (s : string) : string :=
  match n, s with
  | S n', String c t => String c (take n' t)
  | _, _ => EmptyString
  end.

(** [!s] is false: the string is not empty. *)
Definition truthy (s : string) : bool :=
  match s with EmptyString => false | String _ _ => true end.

(** The UTF-8 bytes of a string, as [hash.update(str)] feeds them to the
    digest: one byte below U+0080, two bytes from there to U+00FF. *)
Fixpoint utf8 (s : string) : list Z :=
  match s with
  | EmptyString => []
  | String c t =>
      let n := Z.of_N (N_of_ascii c) in
      if (n <? 128)%Z then n :: utf8 t
      else Z.lor 192 (Z.shiftr n 6) :: Z.lor 128 (Z.land n 63) :: utf8 t
  end.

(** Code units outside ASCII that the tables need. *)
Definition a_uml : ascii := ascii_of_N 228.
Definition e_acute : ascii := ascii_of_N 233.
Definition e_uml : ascii := ascii_of_N 235.
Definition u_uml : ascii := ascii_of_N 252.
Definition eszett : ascii := ascii_of_N 223.
Definition tab : ascii := ascii_of_N 9.

End JsString.

(** ** The MD5 digest (RFC 1321), as [crypto.createHash('md5')] computes it *)

Module Md5.
Local Open Scope Z_scope.

Definition w32 (x : Z) : Z := Z.land x 4294967295.
Definition add32 (x y : Z) : Z := w32 (x + y).
Definition not32 (x : Z) : Z := Z.lxor x 4294967295.
Definition rotl32 (x s : Z) : Z :=
  w32 (Z.lor (Z.shiftl x s) (Z.shiftr x (32 - s))).

Definition K : list Z :=
  [ 0xd76aa478; 0xe8c7b756; 0x242070db; 0xc1bdceee;
    0xf57c0faf; 0x4787c62a; 0xa8304613; 0xfd469501;
    0x698098d8; 0x8b44f7af; 0xffff5bb1; 0x895cd7be;
    0x6b901122; 0xfd987193; 0xa679438e; 0x49b40821;
    0xf61e2562; 0xc040b340; 0x265e5a51; 0xe9b6c7aa;
    0xd62f105d; 0x02441453; 0xd8a1e681; 0xe7d3fbc8;
    0x21e1cde6; 0xc33707d6; 0xf4d50d87; 0x455a14ed;
    0xa9e3e905; 0xfcefa3f8; 0x676f02d9; 0x8d2a4c8a;
    0xfffa3942; 0x8771f681; 0x6d9d6122; 0xfde5380c;
    0xa4beea44; 0x4bdecfa9; 0xf6bb4b60; 0xbebfbc70;
    0x289b7ec6; 0xeaa127fa; 0xd4ef3085; 0x04881d05;
    0xd9d4d039; 0xe6db99e5; 0x1fa27cf8; 0xc4ac5665;
    0xf4292244; 0x432aff97; 0xab9423a7; 0xfc93a039;
    0x655b59c3; 0x8f0ccc92; 0xffeff47d; 0x85845dd1;
    0x6fa87e4f; 0xfe2ce6e0; 0xa3014314; 0x4e0811a1;
    0xf7537e82; 0xbd3af235; 0x2ad7d2bb; 0xeb86d391 ].

Definition shifts : list Z :=
  [ 7; 12; 17; 22; 7; 12; 17; 22; 7; 12; 17; 22; 7; 12; 17; 22;
    5; 9; 14; 20; 5; 9; 14; 20; 5; 9; 14; 20; 5; 9; 14; 20;
    4; 11; 16; 23; 4; 11; 16; 23; 4; 11; 16; 23; 4; 11; 16; 23;
    6; 10; 15; 21; 6; 10; 15; 21; 6; 10; 15; 21; 6; 10; 15; 21 ].

Record regs := Regs { rA : Z; rB : Z; rC : Z; rD : Z }.

Definition init : regs :=
  Regs 0x67452301 0xefcdab89 0x98badcfe 0x10325476.

(** The message after padding: a single 1 bit, zeros up to 56 modulo 64
    bytes, and the bit length as a 64-bit little-endian integer. *)
Definition le_bytes (n : nat) (x : Z) : list Z :=
  map (fun i => Z.land (Z.shiftr x (8 * Z.of_nat i)) 255) (seq 0 n).

Definition pad (msg : list Z) : list Z :=
  let len := Z.of_nat (length msg) in
  let zeros := Z.to_nat ((55 - len) mod 64) in
  msg ++ [128] ++ repeat 0 zeros ++ le_bytes 8 (Z.land (8 * len) (2 ^ 64 - 1)).

Fixpoint le_word (bs : list Z) : Z :=
  match bs with
  | [] => 0
  | b :: t => Z.lor b (Z.shiftl (le_word t) 8)
  end.

(** The sixteen 32-bit words of one 64-byte block. *)
Fixpoint words (n : nat) (bs : list Z) : list Z :=
  match n with
  | O => []
  | S n' => le_word (firstn 4 bs) :: words n' (skipn 4 bs)
  end.

Definition step (M : list Z) (r : regs) (i : nat) : regs :=
  let '(Regs a b c d) := r in
  let zi := Z.of_nat i in
  let '(f, g) :=
    if zi <? 16 then (Z.lor (Z.land b c) (Z.land (not32 b) d), zi)
    else if zi <? 32 then (Z.lor (Z.land d b) (Z.land (not32 d) c), (5 * zi + 1) mod 16)
    else if zi <? 48 then (Z.lxor (Z.lxor b c) d, (3 * zi + 5) mod 16)
    else (Z.lxor c (Z.lor b (not32 d)), (7 * zi) mod 16) in
  let f' := add32 (add32 (add32 f a) (nth i K 0)) (nth (Z.to_nat g) M 0) in
  Regs d (add32 b (rotl32 f' (nth i shifts 0))) b c.

Definition block (r : regs) (bs : list Z) : regs :=
  let M := words 16 bs in
  let r' := fold_left (step M) (seq 0 64) r in
  Regs (add32 (rA r) (rA r')) (add32 (rB r) (rB r'))
       (add32 (rC r) (rC r')) (add32 (rD r) (rD r')).

Fixpoint blocks (n : nat) (r : regs) (bs : list Z) : regs :=
  match n with
  | O => r
  | S n' => blocks n' (block r (firstn 64 bs)) (skipn 64 bs)
  end.

Definition digest (msg : list Z) : list Z :=
  let p := pad msg in
  let r := blocks (length p / 64) init p in
  le_bytes 4 (rA r) ++ le_bytes 4 (rB r) ++ le_bytes 4 (rC r) ++ le_bytes 4 (rD r).

Definition hex_digit (n : Z) : ascii :=
  if n <? 10 then ascii_of_N (Z.to_N (48 + n)) else ascii_of_N (Z.to_N (87 + n)).

(** [digest('hex')]: two lower-case hexadecimal digits per byte. *)
Fixpoint hex (bs : list Z) : string :=
  match bs with
  | [] => EmptyString
  | b :: t => String (hex_digit (Z.shiftr b 4)) (String (hex_digit (Z.land b 15)) (hex t))
  end.

Definition md5_hex (s : string) : string := hex (digest (JsString.utf8 s)).

End Md5.

(** ** Values and string conversion *)

(** The values that reach [generateFingerprint] and [generateSlug]. *)
Inductive value : Type :=
| VUndefined
| VNull
| VNum (z : Z)
| VStr (s : string).

(** [ToBoolean]: [undefined], [null], [0] and the empty string are falsy. *)
Definition truthy (v : value) : bool :=
  match v with
  | VUndefined | VNull => false
  | VNum z => negb (z =? 0)%Z
  | VStr s => JsString.truthy s
  end.

Definition string_of_Z (z : Z) : string := NilZero.string_of_int (Z.to_int z).

(** [ToString], as a template literal applies it. *)
Definition to_str (v : value) : string :=
  match v with
  | VUndefined => "undefined"
  | VNull => "null"
  | VNum z => string_of_Z z
  | VStr s => s
  end.

(** [${v || ''}] *)
Definition or_empty (v : value) : string :=
  if truthy v then to_str v else "".

Definition of_string (o : option string) : value :=
  match o with Some s => VStr s | None => VNull end.

Definition of_number (o : option Z) : value :=
  match o with Some z => VNum z | None => VNull end.

(** ** Helper functions *)

Definition generateFingerprint (make model mileage firstRegistration : value) : string :=
  let str := or_empty make ++ "|" ++ or_empty model ++ "|"
             ++ or_empty mileage ++ "|" ++ or_empty firstRegistration in
  Md5.md5_hex str.

(** The class [[a-z0-9]]. *)
Definition is_slug_char (c : ascii) : bool :=
  let n := N_of_ascii c in
  (((97 <=? n) && (n <=? 122)) || ((48 <=? n) && (n <=? 57)))%N.

(** [.replace(/[^a-z0-9]+/g, '-')]: every maximal run of other characters
    becomes one hyphen; [in_run] tells that the run has begun. *)
Fixpoint hyphenate (in_run : bool) (s : string) : string :=
  match s with
  | EmptyString => EmptyString
  | String c t =>
      if is_slug_char c then String c (hyphenate false t)
      else if in_run then hyphenate true t
      else String "-" (hyphenate true t)
  end.

Definition strip_leading_hyphen (s : string) : string :=
  match s with
  | String "-" t => t
  | _ => s
  end.

Fixpoint strip_trailing_hyphen (s : string) : string :=
  match s with
  | EmptyString => EmptyString
  | String "-" EmptyString => EmptyString
  | String c t => String c (strip_trailing_hyphen t)
  end.

(** [.replace(/^-|-$/g, '')] *)
Definition strip_hyphens (s : string) : string :=
  strip_trailing_hyphen (strip_leading_hyphen s).

(** [generateSlug]; [random] is [crypto.randomBytes(4).toString('hex')]. *)
Definition generateSlug (make model year : value) (random : string) : string :=
  let base :=
    strip_hyphens
      (hyphenate false
         (JsString.toLowerCase
            (to_str make ++ "-" ++ to_str model ++ "-"
             ++ (if truthy year then to_str year else "unknown")))) in
  base ++ "-" ++ random.

(** *** Translation tables *)

(** A table is the object literal read in the order of [Object.entries]:
    none of the keys below is an array index, so that is the order of the
    literal. *)
Definition table : Type := list (string * string).

(** What [map[value]] evaluates to: an own property of the literal, or a
    member that the literal inherits from [Object.prototype] (a function,
    or the prototype object itself for [__proto__]); [None] is
    [undefined]. *)
Inductive property : Type :=
| Own (v : string)
| Inherited (name : string).

Definition object_prototype_names : list string :=
  [ "constructor"; "toString"; "toLocaleString"; "valueOf"; "hasOwnProperty";
    "isPrototypeOf"; "propertyIsEnumerable"; "__proto__";
    "__defineGetter__"; "__defineSetter__"; "__lookupGetter__";
    "__lookupSetter__" ].

Fixpoint own_property (map : table) (key : string) : option string :=
  match map with
  | [] => None
  | (k, v) :: rest => if String.eqb k key then Some v else own_property rest key
  end.

Definition get_property (map : table) (key : string) : option property :=
  match own_property map key with
  | Some v => Some (Own v)
  | None =>
      if existsb (String.eqb key) object_prototype_names
      then Some (Inherited key) else None
  end.

(** [ToBoolean] of what a lookup or [normalizeValue] returned. *)
Definition property_truthy (o : option property) : bool :=
  match o with
  | Some (Own v) => JsString.truthy v
  | Some (Inherited _) => true
  | None => false
  end.

(** The two [for ... of Object.entries(map)] loops: the value of the first
    entry whose key passes the test. *)
Fixpoint first_entry (test : string -> bool) (map : table) : option string :=
  match map with
  | [] => None
  | (key, val) :: rest => if test key then Some val else first_entry test rest
  end.

Definition normalizeValue (value : option string) (map : table) : option property :=
  match value with
  | None => None
  | Some value =>
      if negb (JsString.truthy value) then None
      else if property_truthy (get_property map value) then get_property map value
      else
        let lower := JsString.toLowerCase value in
        match first_entry (fun key => String.eqb (JsString.toLowerCase key) lower) map with
        | Some val => Some (Own val)
        | None =>
            match first_entry
                    (fun key => JsString.includes (JsString.toLowerCase value)
                                                  (JsString.toLowerCase key)) map with
            | Some val => Some (Own val)
            | None => None
            end
        end
  end.

Definition fuelTypeMap : table :=
  [ ("Benzin", "PETROL"); ("Diesel", "DIESEL"); ("Elektro", "ELECTRIC");
    ("Hybrid", "HYBRID"); ("Hybrid (Benzin)", "HYBRID_PETROL");
    ("Hybrid (Benzin/Elektro)", "HYBRID_PETROL");
    ("Hybrid (Diesel)", "HYBRID_DIESEL"); ("Plug-in-Hybrid", "PLUGIN_HYBRID");
    ("LPG", "LPG"); ("CNG", "CNG"); ("Erdgas", "CNG");
    ("Wasserstoff", "HYDROGEN") ].

Definition gearboxMap : table :=
  [ ("Automatik", "AUTOMATIC"); ("Schaltgetriebe", "MANUAL");
    ("Schaltung", "MANUAL"); ("Halbautomatik", "SEMI_AUTOMATIC") ].

Definition bodyTypeMap : table :=
  [ ("Limousine", "SEDAN"); ("Kombi", "WAGON"); ("SUV", "SUV");
    ("Gel" ++ String JsString.a_uml "ndewagen", "SUV");
    ("Coup" ++ String JsString.e_acute "", "COUPE"); ("Coupe", "COUPE");
    ("Sportwagen/Coup" ++ String JsString.e_acute "", "SPORTS_COUPE");
    ("Sportwagen", "SPORTS"); ("Cabrio", "CONVERTIBLE");
    ("Cabriolet", "CONVERTIBLE"); ("Roadster", "ROADSTER");
    ("Kleinwagen", "COMPACT"); ("Van", "VAN"); ("Van/Minibus", "MPV");
    ("Pickup", "PICKUP"); ("Andere", "OTHER") ].

Definition driveTypeMap : table :=
  [ ("Verbrennungsmotor", "ICE"); ("Elektro", "ELECTRIC");
    ("Elektroantrieb", "ELECTRIC"); ("Hybrid", "HYBRID");
    ("Hybridantrieb", "HYBRID"); ("Plug-in-Hybrid", "PLUGIN_HYBRID") ].

Definition climateMap : table :=
  [ ("Klimaanlage", "AUTOMATIC"); ("Klimaautomatik", "AUTOMATIC");
    ("2-Zonen-Klimaautomatik", "TWO_ZONE");
    ("3-Zonen-Klimaautomatik", "THREE_ZONE");
    ("4-Zonen-Klimaautomatik", "FOUR_ZONE");
    ("Manuelle Klimaanlage", "MANUAL") ].

Definition colorMap : table :=
  [ ("Wei" ++ String JsString.eszett "", "WHITE"); ("Schwarz", "BLACK");
    ("Silber", "SILVER"); ("Grau", "GRAY"); ("Rot", "RED"); ("Blau", "BLUE");
    ("Gr" ++ String JsString.u_uml "n", "GREEN"); ("Braun", "BROWN");
    ("Beige", "BEIGE"); ("Gold", "GOLD"); ("Orange", "ORANGE");
    ("Gelb", "YELLOW"); ("Violett", "PURPLE"); ("Bronze", "BRONZE");
    ("Anthrazit", "ANTHRACITE") ].

Definition interiorMaterialMap : table :=
  [ ("Leder", "LEATHER"); ("Vollleder", "FULL_LEATHER");
    ("Teilleder", "PARTIAL_LEATHER"); ("Stoff", "FABRIC");
    ("Alcantara", "ALCANTARA"); ("Velours", "VELOUR") ].

(** *** Field parsers *)

(** One attempt of [/\s*metallic\s*/i] at the start of [s]: the text left
    after the match.  Without the [u] flag the letters of the pattern match
    their two ASCII cases only, which is what lowering a code unit below 256
    tests. *)
Definition match_metallic (s : string) : option string :=
  let s1 := JsString.trimStart s in
  if String.prefix "metallic" (JsString.toLowerCase s1)
  then Some (JsString.trimStart (JsString.drop 8 s1))
  else None.

(** [.replace(/\s*metallic\s*/i, '')]: the leftmost match is removed. *)
Fixpoint remove_metallic (s : string) : string :=
  match match_metallic s with
  | Some rest => rest
  | None =>
      match s with
      | EmptyString => EmptyString
      | String c t => String c (remove_metallic t)
      end
  end.

Definition parseColor (colorString : option string) : option property * bool :=
  match colorString with
  | None => (None, false)
  | Some colorString =>
      if negb (JsString.truthy colorString) then (None, false)
      else
        let metallic := JsString.includes (JsString.toLowerCase colorString) "metallic" in
        let colorOnly := JsString.trim (remove_metallic colorString) in
        (normalizeValue (Some colorOnly) colorMap, metallic)
  end.

(** [s.split(sep)] for a separator of one character. *)
Fixpoint split (sep : ascii) (s : string) : list string :=
  match s with
  | EmptyString => [EmptyString]
  | String c t =>
      if Ascii.eqb c sep then EmptyString :: split sep t
      else match split sep t with
           | [] => [String c EmptyString]
           | h :: r => String c h :: r
           end
  end.

(** [parts.join(sep)] *)
Fixpoint join (sep : string) (parts : list string) : string :=
  match parts with
  | [] => EmptyString
  | [x] => x
  | x :: rest => x ++ sep ++ join sep rest
  end.

(** The loop of [parseInterior]; [material] and [color] are the two
    variables it assigns. *)
Fixpoint parseInterior_loop (parts : list string) (material color : option property)
  : option property * option property :=
  match parts with
  | [] => (material, color)
  | part :: rest =>
      let material :=
        if negb (property_truthy material)
        then normalizeValue (Some part) interiorMaterialMap else material in
      let color :=
        if negb (property_truthy color)
        then normalizeValue (Some part) colorMap else color in
      parseInterior_loop rest material color
  end.

Definition parseInterior (interiorString : option string)
  : option property * option property :=
  match interiorString with
  | None => (None, None)
  | Some interiorString =>
      if negb (JsString.truthy interiorString) then (None, None)
      else
        let parts := map JsString.trim (split "," interiorString) in
        parseInterior_loop parts None None
  end.

Fixpoint keep_digits (s : string) : string :=
  match s with
  | EmptyString => EmptyString
  | String c t => if JsString.is_digit c then String c (keep_digits t) else keep_digits t
  end.

(** The number that a string of digits denotes. *)
Fixpoint digits_value (acc : Z) (s : string) : Z :=
  match s with
  | EmptyString => acc
  | String c t => digits_value (10 * acc + (Z.of_N (N_of_ascii c) - 48)) t
  end.

(** The longest prefix of digits. *)
Fixpoint leading_digits (s : string) : string :=
  match s with
  | String c t => if JsString.is_digit c then String c (leading_digits t) else EmptyString
  | EmptyString => EmptyString
  end.

(** [parseInt(s, 10)]; [None] is [NaN]. *)
Definition parseInt (s : string) : option Z :=
  let s := JsString.trimStart s in
  let '(negative, s) :=
    match s with
    | String "-" t => (true, t)
    | String "+" t => (false, t)
    | _ => (false, s)
    end in
  match leading_digits s with
  | EmptyString => None
  | ds => Some (if negative : bool then - digits_value 0 ds else digits_value 0 ds)%Z
  end.

Definition parseNumeric (value : option string) : option Z :=
  match value with
  | None => None
  | Some value =>
      if negb (JsString.truthy value) then None
      else parseInt (keep_digits value)
  end.

(** One attempt of [/(\d+)\s*UNIT/] at the start of [s]: the digits
    captured.  The digits and the white space are matched greedily and
    giving some back never helps, the next character being a digit or a
    space again. *)
Definition match_unit (unit s : string) : option string :=
  match leading_digits s with
  | EmptyString => None
  | ds =>
      if String.prefix unit (JsString.trimStart (JsString.drop (String.length ds) s))
      then Some ds else None
  end.

(** [s.match(/(\d+)\s*UNIT/)]: the capture of the leftmost match. *)
Fixpoint search_unit (unit s : string) : option string :=
  match match_unit unit s with
  | Some ds => Some ds
  | None =>
      match s with
      | EmptyString => None
      | String _ t => search_unit unit t
      end
  end.

Definition parsePower (powerString : option string) : option Z * option Z :=
  match powerString with
  | None => (None, None)
  | Some powerString =>
      if negb (JsString.truthy powerString) then (None, None)
      else
        let kwMatch := search_unit "kW" powerString in
        let psMatch := search_unit "PS" powerString in
        (match kwMatch with Some ds => parseInt ds | None => None end,
         match psMatch with Some ds => parseInt ds | None => None end)
  end.

(** One attempt of [/(\d{2})\/(\d{4})/] at the start of [s]: the two
    groups, month first. *)
Definition match_registration (s : string) : option (string * string) :=
  match s with
  | String m1 (String m2 (String sep (String y1 (String y2 (String y3 (String y4 _)))))) =>
      if Ascii.eqb sep "/" && forallb JsString.is_digit [m1; m2; y1; y2; y3; y4]
      then Some (String m1 (String m2 EmptyString),
                 String y1 (String y2 (String y3 (String y4 EmptyString))))
      else None
  | _ => None
  end.

(** [regString.match(/(\d{2})\/(\d{4})/)]: the leftmost match. *)
Fixpoint search_registration (s : string) : option (string * string) :=
  match match_registration s with
  | Some groups => Some groups
  | None =>
      match s with
      | EmptyString => None
      | String _ t => search_registration t
      end
  end.

Definition parseRegistration (regString : option string) : option string :=
  match regString with
  | None => None
  | Some regString =>
      if negb (JsString.truthy regString) then None
      else
        match search_registration regString with
        | Some (month, year) => Some (year ++ month)
        | None => Some regString
        end
  end.

Definition knownMakes : list string :=
  [ "Mercedes-Benz"; "BMW"; "Audi"; "Volkswagen"; "Porsche"; "Ford"; "Opel";
    "Toyota"; "Honda"; "Mazda"; "Nissan"; "Hyundai"; "Kia"; "Volvo"; "Skoda";
    "Seat"; "Renault"; "Peugeot"; "Citro" ++ String JsString.e_uml "n"; "Fiat";
    "Alfa Romeo"; "Jaguar"; "Land Rover"; "Range Rover"; "Mini"; "Tesla";
    "Lexus"; "Infiniti" ].

(** The [for ... of knownMakes] loop of [parseMakeModel]. *)
Fixpoint parseMakeModel_loop (title : string) (makes : list string)
  : option (string * string) :=
  match makes with
  | [] => None
  | make :: rest =>
      if JsString.startsWith title make
      then Some (make, JsString.trim (JsString.drop (String.length make) title))
      else parseMakeModel_loop title rest
  end.

Definition parseMakeModel (title : option string) : option string * option string :=
  match title with
  | None => (None, None)
  | Some title =>
      if negb (JsString.truthy title) then (None, None)
      else
        match parseMakeModel_loop title knownMakes with
        | Some (make, model) => (Some make, Some model)
        | None =>
            let parts := split " " title in
            (head parts, Some (join " " (tail parts)))
        end
  end.

(** ** Data *)

(** What [page.evaluate] hands back for one listing page.  A field that the
    page lacks is the empty string in the script's own extraction and an
    absent key ([None]) for any other producer; the code below treats the
    two alike. *)
Module Raw.
Record t : Type := Make {
  title : option string;
  price : option string;
  mileage : option string;
  power : option string;
  fuelType : option string;
  transmission : option string;
  firstRegistration : option string;
  owners : option string;
  condition : option string;
  bodyType : option string;
  series : option string;
  variant : option string;
  hubraum : option string;
  driveType : option string;
  seats : option string;
  doors : option string;
  emissionClass : option string;
  emissionSticker : option string;
  hu : option string;
  climate : option string;
  parkingAssist : option string;
  airbags : option string;
  colorManufacturer : option string;
  color : option string;
  interior : option string;
  weight : option string;
  cylinders : option string;
  tankSize : option string;
  subtitle : option string;
  features : option (list string);
  images : list string
}.
End Raw.

(** The object that [scrapeListingDetails] builds; [None] is [null]. *)
Module Listing.
Record t : Type := Make {
  slug : string;
  fingerprint : string;
  make : option string;
  model : option string;
  model_description : option string;
  subtitle : option string;
  series : option string;
  variant : option string;
  price : option Z;
  currency : string;
  price_type : string;
  mileage : option Z;
  first_registration : option string;
  fuel : option property;
  gearbox : option property;
  power_kw : option Z;
  power_ps : option Z;
  cubic_capacity : option Z;
  cylinders : option Z;
  body_type : option property;
  drive_type : option property;
  num_doors : option Z;
  num_seats : option Z;
  exterior_color : option property;
  exterior_color_manufacturer : option string;
  metallic : bool;
  interior_color : option property;
  interior_material : option property;
  climate : option property;
  airbags : option string;
  emission_class : option string;
  emission_sticker : option string;
  hu_valid_until : option string;
  num_previous_owners : option Z;
  accident_damaged : option bool;
  condition : option string;
  tank_size : option Z;
  weight : option Z;
  features : list string;
  images : list string;
  source_url : string;
  source : string;
  sync_source : string;
  synced_at : string;
  published : bool;
  featured : bool
}.
End Listing.

(** [config/dealers.json] after [JSON.parse]; the two caps are counts. *)
Module Config.
Record dealer : Type := Dealer { name : string; url : string }.
Record settings : Type := Settings {
  maxListingsPerDealer : nat;
  maxTotalListings : nat;
  imageWidth : Z;
  imageHeight : Z;
  enabled : bool
}.
Record t : Type := Make { dealers : list dealer; the_settings : settings }.

Definition with_maxTotalListings (n : nat) (c : t) : t :=
  Make (dealers c)
       (Settings (maxListingsPerDealer (the_settings c)) n
                 (imageWidth (the_settings c)) (imageHeight (the_settings c))
                 (enabled (the_settings c))).
End Config.

(** The global [syncLog], the report of the run. *)
Module SyncLog.
Inductive entry : Type :=
| InsertError (error listing : string)
| ScrapeError (url error : string)
| DealerError (url error : string).

Record t : Type := Make {
  startedAt : string;
  dealers : list Config.dealer;
  listingsFound : nat;
  listingsNew : nat;
  listingsSkipped : nat;
  imagesUploaded : nat;
  errors : list entry;
  completedAt : option string
}.

Definition initial (startedAt : string) : t :=
  Make startedAt [] 0 0 0 0 [] None.

Definition push_dealer (d : Config.dealer) (l : t) : t :=
  Make (startedAt l) (dealers l ++ [d]) (listingsFound l) (listingsNew l)
       (listingsSkipped l) (imagesUploaded l) (errors l) (completedAt l).
Definition add_found (n : nat) (l : t) : t :=
  Make (startedAt l) (dealers l) (listingsFound l + n) (listingsNew l)
       (listingsSkipped l) (imagesUploaded l) (errors l) (completedAt l).
Definition incr_new (l : t) : t :=
  Make (startedAt l) (dealers l) (listingsFound l) (listingsNew l + 1)
       (listingsSkipped l) (imagesUploaded l) (errors l) (completedAt l).
Definition incr_skipped (l : t) : t :=
  Make (startedAt l) (dealers l) (listingsFound l) (listingsNew l)
       (listingsSkipped l + 1) (imagesUploaded l) (errors l) (completedAt l).
Definition incr_images (l : t) : t :=
  Make (startedAt l) (dealers l) (listingsFound l) (listingsNew l)
       (listingsSkipped l) (imagesUploaded l + 1) (errors l) (completedAt l).
Definition push_error (e : entry) (l : t) : t :=
  Make (startedAt l) (dealers l) (listingsFound l) (listingsNew l)
       (listingsSkipped l) (imagesUploaded l) (errors l ++ [e]) (completedAt l).
Definition complete (now : string) (l : t) : t :=
  Make (startedAt l) (dealers l) (listingsFound l) (listingsNew l)
       (listingsSkipped l) (imagesUploaded l) (errors l) (Some now).
End SyncLog.

(** ** The collaborators and the run state *)

(** An awaited call returns or throws. *)
Inductive outcome (A : Type) : Type :=
| Returned (a : A)
| Thrown (message : string).
Arguments Returned {A} a.
Arguments Thrown {A} message.

(** The [{ data, error }] object of the database client. *)
Inductive reply (A : Type) : Type :=
| Data (a : A)
| Error (message : string).
Arguments Data {A} a.
Arguments Error {A} message.

Definition buffer : Type := list Z.

(** Everything outside the script: the browser, the storage and database
    client, the random source and the clock.  [W] is the state of that
    outside world; each call may change it.
    - [select_fingerprints]: the query of [getExistingFingerprints];
    - [search_page]: [page.goto] of a search page and the evaluation that
      collects the listing URLs (already without repeated ids);
    - [listing_page]: [page.goto] of a listing page and the two evaluations
      that expand it and read the raw fields;
    - [screenshot_webp]: a fresh page sized [width] by [height], the
      screenshot of the image and its conversion to WebP;
    - [storage_upload], [public_url]: the storage bucket;
    - [random_hex]: [crypto.randomBytes(4).toString('hex')];
    - [date_now]: [new Date().toISOString()];
    - [insert_row]: the insertion of a listing, answering its id.
    The database client reports a failure in the [error] field of its
    answer.  Console output and the pauses of [delay] have no effect on what
    is modelled and are left out; the launch of the browser and the opening
    and closing of its pages are taken to succeed. *)
Class Collaborators (W : Type) : Type := {
  select_fingerprints : W -> reply (list string) * W;
  search_page : string -> W -> outcome (list string) * W;
  listing_page : string -> W -> outcome Raw.t * W;
  screenshot_webp : string -> Z -> Z -> W -> outcome buffer * W;
  storage_upload : string -> buffer -> W -> outcome (reply unit) * W;
  public_url : string -> string;
  random_hex : W -> string * W;
  date_now : W -> string * W;
  insert_row : Listing.t -> W -> reply string * W
}.

(** The calls that leave the script, in the order they are made; the
    membership test on the set of known fingerprints is recorded with the
    set it is made on. *)
Inductive call : Type :=
| SelectFingerprints
| SearchPage (url : string)
| ListingPage (url : string)
| HasFingerprint (fingerprint : string) (known : gset string)
| ProcessImage (imageUrl slug : string) (index : nat)
| StorageUpload (fileName : string)
| InsertListing (listing : Listing.t).

Record state (W : Type) : Type := State {
  world : W;
  syncLog : SyncLog.t;
  trace : list call
}.
Arguments State {W} world syncLog trace.
Arguments world {W} s.
Arguments syncLog {W} s.
Arguments trace {W} s.

(** A computation of the script: it runs from a state, returns or throws,
    and leaves a state. *)
Definition M (W A : Type) : Type := state W -> outcome A * state W.

Definition ret {W A} (a : A) : M W A := fun st => (Returned a, st).

Definition bind {W A B} (m : M W A) (k : A -> M W B) : M W B :=
  fun st =>
    match m st with
    | (Returned a, st') => k a st'
    | (Thrown e, st') => (Thrown e, st')
    end.

(** [try { m } catch (err) { handler(err.message) }] *)
Definition try_catch {W A} (m : M W A) (handler : string -> M W A) : M W A :=
  fun st =>
    match m st with
    | (Returned a, st') => (Returned a, st')
    | (Thrown e, st') => handler e st'
    end.

Declare Scope js_scope.
Delimit Scope js_scope with js.
Notation "'let!' x ':=' m 'in' k" := (bind m (fun x => k))
  (at level 10, x name, m at level 100, k at level 200) : js_scope.
Notation "'do!' m 'in' k" := (bind m (fun _ => k))
  (at level 10, m at level 100, k at level 200) : js_scope.

(** A call of a collaborator that cannot throw. *)
Definition perform {W A} (ev : list call) (f : W -> A * W) : M W A :=
  fun st =>
    let '(a, w) := f (world st) in
    (Returned a, State w (syncLog st) (trace st ++ ev)).

(** A call of a collaborator that may throw. *)
Definition await {W A} (ev : list call) (f : W -> outcome A * W) : M W A :=
  fun st =>
    let '(r, w) := f (world st) in
    (r, State w (syncLog st) (trace st ++ ev)).

(** An assignment to a field of [syncLog]. *)
Definition log_update {W} (f : SyncLog.t -> SyncLog.t) : M W unit :=
  fun st => (Returned tt, State (world st) (f (syncLog st)) (trace st)).

(** ** The script *)

(** [x || null] on a string that may be absent. *)
Definition or_null (x : option string) : option string :=
  match x with
  | Some s => if JsString.truthy s then Some s else None
  | None => None
  end.

(** [rawData.condition?.toLowerCase().includes(word)], as a condition. *)
Definition condition_includes (condition : option string) (word : string) : bool :=
  match condition with
  | Some c => JsString.includes (JsString.toLowerCase c) word
  | None => false
  end.

(** The fingerprint that [scrapeListingDetails] computes for a page. *)
Definition fingerprint_of (rawData : Raw.t) : string :=
  let '(make, model) := parseMakeModel (Raw.title rawData) in
  let firstRegistration := parseRegistration (Raw.firstRegistration rawData) in
  let mileage := parseNumeric (Raw.mileage rawData) in
  generateFingerprint (of_string make) (of_string model) (of_number mileage)
                      (of_string firstRegistration).

(** One attempt of [/customerId=(\d+)/] at the start of [s]. *)
Definition match_customerId (s : string) : option string :=
  if String.prefix "customerId=" s
  then match leading_digits (JsString.drop 11 s) with
       | EmptyString => None
       | ds => Some ds
       end
  else None.

Fixpoint search_customerId (s : string) : option string :=
  match match_customerId s with
  | Some ds => Some ds
  | None =>
      match s with
      | EmptyString => None
      | String _ t => search_customerId t
      end
  end.

Definition searchUrl_of (dealerUrl : string) : string :=
  match search_customerId dealerUrl with
  | Some id => "https://suchen.mobile.de/fahrzeuge/search.html?s=Car&vc=Car&sid=" ++ id
  | None => dealerUrl
  end.

(** What [scrapeListingDetails] returns. *)
Inductive scraped : Type :=
| Skipped (title : option string)
| Scraped (listing : Listing.t).

Section Script.
Context {W : Type} {outside : Collaborators W}.
Local Open Scope js_scope.

Definition getExistingFingerprints : M W (gset string) :=
  let! r := perform [SelectFingerprints] select_fingerprints in
  match r with
  | Error _ => ret ∅
  | Data rows => ret (list_to_set rows)
  end.

Definition uploadImage (imageBuffer : buffer) (listingSlug : string) (imageIndex : nat)
  : M W (option string) :=
  let fileName := listingSlug ++ "/" ++ string_of_Z (Z.of_nat imageIndex) ++ ".webp" in
  let! r := await [StorageUpload fileName] (storage_upload fileName imageBuffer) in
  match r with
  | Error _ => ret None
  | Data _ => ret (Some (public_url fileName))
  end.

Definition insertListing (listing : Listing.t) : M W (option string) :=
  let! r := perform [InsertListing listing] (insert_row listing) in
  match r with
  | Error message =>
      do! log_update (SyncLog.push_error
                        (SyncLog.InsertError message (Listing.slug listing))) in
      ret None
  | Data id => ret (Some id)
  end.

Definition processAndUploadImage (imageUrl listingSlug : string) (imageIndex : nat)
           (config : Config.t) : M W (option string) :=
  let settings := Config.the_settings config in
  let! webpBuffer :=
    await [ProcessImage imageUrl listingSlug imageIndex]
          (screenshot_webp imageUrl (Config.imageWidth settings)
                           (Config.imageHeight settings)) in
  uploadImage webpBuffer listingSlug imageIndex.

(** The image loop of [scrapeListingDetails], with [i] the loop variable,
    [todo] the number of rounds left ([maxImages - i]) and [imageUrls]
    the array filled so far.  The handler of [catch] only writes to the
    console.  [images[i]] is always in range. *)
Fixpoint image_loop (images : list string) (slug : string) (config : Config.t)
         (todo i : nat) (imageUrls : list string) : M W (list string) :=
  match todo with
  | O => ret imageUrls
  | S todo' =>
      let imageUrl := nth i images EmptyString in
      let! imageUrls :=
        try_catch
          (let! uploadedUrl := processAndUploadImage imageUrl slug i config in
           match uploadedUrl with
           | Some uploaded =>
               if JsString.truthy uploaded
               then do! log_update SyncLog.incr_images in
                    ret (imageUrls ++ [uploaded])%list
               else ret imageUrls
           | None => ret imageUrls
           end)
          (fun _ => ret imageUrls) in
      image_loop images slug config todo' (S i) imageUrls
  end.

Definition scrapeListingDetails (url : string) (config : Config.t)
           (existingFingerprints : gset string) : M W scraped :=
  let! rawData := await [ListingPage url] (listing_page url) in
  let '(make, model) := parseMakeModel (Raw.title rawData) in
  let firstRegistration := parseRegistration (Raw.firstRegistration rawData) in
  let mileage := parseNumeric (Raw.mileage rawData) in
  let fingerprint :=
    generateFingerprint (of_string make) (of_string model) (of_number mileage)
                        (of_string firstRegistration) in
  let! known :=
    perform [HasFingerprint fingerprint existingFingerprints]
            (fun w => (bool_decide (fingerprint ∈ existingFingerprints), w)) in
  if known : bool then ret (Skipped (Raw.title rawData))
  else
    let '(color, metallic) := parseColor (Raw.color rawData) in
    let '(interiorMaterial, interiorColor) := parseInterior (Raw.interior rawData) in
    let '(powerKw, powerPs) := parsePower (Raw.power rawData) in
    let year :=
      match firstRegistration with
      | Some r => if JsString.truthy r then VStr (JsString.take 4 r) else VNull
      | None => VNull
      end in
    let! random := perform [] random_hex in
    let slug := generateSlug (of_string make) (of_string model) year random in
    let maxImages := Nat.min (length (Raw.images rawData)) 10 in
    let! imageUrls := image_loop (Raw.images rawData) slug config maxImages 0 [] in
    let! now := perform [] date_now in
    ret (Scraped {|
      Listing.slug := slug;
      Listing.fingerprint := fingerprint;
      Listing.make := make;
      Listing.model := model;
      Listing.model_description := or_null (Raw.subtitle rawData);
      Listing.subtitle := or_null (Raw.subtitle rawData);
      Listing.series := or_null (Raw.series rawData);
      Listing.variant := or_null (Raw.variant rawData);
      Listing.price := parseNumeric (Raw.price rawData);
      Listing.currency := "EUR";
      Listing.price_type := "FIXED";
      Listing.mileage := mileage;
      Listing.first_registration := firstRegistration;
      Listing.fuel := normalizeValue (Raw.fuelType rawData) fuelTypeMap;
      Listing.gearbox := normalizeValue (Raw.transmission rawData) gearboxMap;
      Listing.power_kw := powerKw;
      Listing.power_ps := powerPs;
      Listing.cubic_capacity := parseNumeric (Raw.hubraum rawData);
      Listing.cylinders := parseNumeric (Raw.cylinders rawData);
      Listing.body_type := normalizeValue (Raw.bodyType rawData) bodyTypeMap;
      Listing.drive_type := normalizeValue (Raw.driveType rawData) driveTypeMap;
      Listing.num_doors := parseNumeric (Raw.doors rawData);
      Listing.num_seats := parseNumeric (Raw.seats rawData);
      Listing.exterior_color := color;
      Listing.exterior_color_manufacturer := or_null (Raw.colorManufacturer rawData);
      Listing.metallic := metallic;
      Listing.interior_color := interiorColor;
      Listing.interior_material := interiorMaterial;
      Listing.climate := normalizeValue (Raw.climate rawData) climateMap;
      Listing.airbags := or_null (Raw.airbags rawData);
      Listing.emission_class := or_null (Raw.emissionClass rawData);
      Listing.emission_sticker := or_null (Raw.emissionSticker rawData);
      Listing.hu_valid_until := or_null (Raw.hu rawData);
      Listing.num_previous_owners := parseNumeric (Raw.owners rawData);
      Listing.accident_damaged :=
        if condition_includes (Raw.condition rawData) "unfallfrei"
        then Some false else None;
      Listing.condition :=
        if condition_includes (Raw.condition rawData) "neuwagen"
        then Some "NEW" else Some "USED";
      Listing.tank_size := parseNumeric (Raw.tankSize rawData);
      Listing.weight := parseNumeric (Raw.weight rawData);
      Listing.features := default [] (Raw.features rawData);
      Listing.images := imageUrls;
      Listing.source_url := url;
      Listing.source := "github_actions";
      Listing.sync_source := "github_actions";
      Listing.synced_at := now;
      Listing.published := true;
      Listing.featured := false
    |}).

(** One round of the listing loop of [scrapeDealer]: the [try] block and
    its handler; [listings] is the array filled so far. *)
Definition scrapeDealer_round (url : string) (config : Config.t)
           (existingFingerprints : gset string) (listings : list Listing.t)
  : M W (list Listing.t) :=
  try_catch
    (let! listing := scrapeListingDetails url config existingFingerprints in
     match listing with
     | Skipped _ =>
         do! log_update SyncLog.incr_skipped in
         ret listings
     | Scraped listing => ret (listings ++ [listing])%list
     end)
    (fun message =>
       do! log_update (SyncLog.push_error (SyncLog.ScrapeError url message)) in
       ret listings).

Fixpoint scrapeDealer_loop (limitedUrls : list string) (config : Config.t)
         (existingFingerprints : gset string) (listings : list Listing.t)
  : M W (list Listing.t) :=
  match limitedUrls with
  | [] => ret listings
  | url :: rest =>
      let! listings := scrapeDealer_round url config existingFingerprints listings in
      scrapeDealer_loop rest config existingFingerprints listings
  end.

(** In the outer [try] only the navigation to the search page can throw,
    before any listing is pushed, so its handler returns the empty
    array. *)
Definition scrapeDealer (dealerUrl : string) (config : Config.t)
           (existingFingerprints : gset string) : M W (list Listing.t) :=
  try_catch
    (let searchUrl := searchUrl_of dealerUrl in
     let! listingUrls := await [SearchPage searchUrl] (search_page searchUrl) in
     let limitedUrls :=
       firstn (Config.maxListingsPerDealer (Config.the_settings config)) listingUrls in
     scrapeDealer_loop limitedUrls config existingFingerprints [])
    (fun message =>
       do! log_update (SyncLog.push_error (SyncLog.DealerError dealerUrl message)) in
       ret []).

(** The dealer loop of [main]; returning early is its [break]. *)
Fixpoint main_dealers (dealers : list Config.dealer) (config : Config.t)
         (existingFingerprints : gset string) (allListings : list Listing.t)
  : M W (list Listing.t) :=
  match dealers with
  | [] => ret allListings
  | dealer :: rest =>
      do! log_update (SyncLog.push_dealer dealer) in
      let! listings := scrapeDealer (Config.url dealer) config existingFingerprints in
      let allListings := (allListings ++ listings)%list in
      do! log_update (SyncLog.add_found (length listings)) in
      let maxTotalListings := Config.maxTotalListings (Config.the_settings config) in
      if (maxTotalListings <=? length allListings)%nat
      then ret (firstn maxTotalListings allListings)
      else main_dealers rest config existingFingerprints allListings
  end.

(** The insertion loop of [main]. *)
Fixpoint main_insert (allListings : list Listing.t) : M W unit :=
  match allListings with
  | [] => ret tt
  | listing :: rest =>
      let! result := insertListing listing in
      do! (match result with
           | Some _ => log_update SyncLog.incr_new
           | None => ret tt
           end) in
      main_insert rest
  end.

(** [config.settings.maxTotalListings] after the override of the
    environment variable [MAX_LISTINGS_OVERRIDE]. *)
Definition override (config : Config.t) (MAX_LISTINGS_OVERRIDE : option string) : Config.t :=
  match parseInt (default "0" (or_null MAX_LISTINGS_OVERRIDE)) with
  | Some maxOverride =>
      if (0 <? maxOverride)%Z
      then Config.with_maxTotalListings (Z.to_nat maxOverride) config
      else config
  | None => config
  end.

(** [main] from the loaded configuration on; with the sync disabled the
    process exits at once.  The result is the array handed to the
    insertion loop. *)
Definition main (config : Config.t) (MAX_LISTINGS_OVERRIDE : option string)
  : M W (list Listing.t) :=
  if negb (Config.enabled (Config.the_settings config)) then ret []
  else
    let config := override config MAX_LISTINGS_OVERRIDE in
    let! existingFingerprints := getExistingFingerprints in
    let! allListings :=
      main_dealers (Config.dealers config) config existingFingerprints [] in
    do! main_insert allListings in
    let! now := perform [] date_now in
    do! log_update (SyncLog.complete now) in
    ret allListings.

End Script.

(** ** The extraction that runs in the page

    The callbacks that [page.evaluate] runs over the elements of the page,
    as functions of the texts that the elements carry: the [href] of each
    link that the selector finds, the [src] of each image, the title of the
    document. *)

(** One attempt of [/[?&]id=(\d+)/] at the start of [s]. *)
Definition match_listing_id (s : string) : option string :=
  match s with
  | String c t =>
      if (Ascii.eqb c "?" || Ascii.eqb c "&") && String.prefix "id=" t
      then match leading_digits (JsString.drop 3 t) with
           | EmptyString => None
           | ds => Some ds
           end
      else None
  | EmptyString => None
  end.

(** [href.match(/[?&]id=(\d+)/)]: the capture of the leftmost match. *)
Fixpoint search_listing_id (s : string) : option string :=
  match match_listing_id s with
  | Some ds => Some ds
  | None =>
      match s with
      | EmptyString => None
      | String _ t => search_listing_id t
      end
  end.

(** An element of [listingUrls]. *)
Module ListingUrl.
Record t : Type := Make { url : string; id : string }.
End ListingUrl.

(** The [forEach] over the links of a search page; [seenIds] and [urls] are
    the set and the array that the callback fills. *)
Fixpoint listingUrls_loop (hrefs : list string) (seenIds : gset string)
         (urls : list ListingUrl.t) : list ListingUrl.t :=
  match hrefs with
  | [] => urls
  | href :: rest =>
      match search_listing_id href with
      | Some id =>
          if bool_decide (id ∈ seenIds) then listingUrls_loop rest seenIds urls
          else
            listingUrls_loop rest ({[id]} ∪ seenIds)
              (urls ++ [ListingUrl.Make
                          ("https://suchen.mobile.de/fahrzeuge/details.html?id=" ++ id)%string
                          id])%list
      | None => listingUrls_loop rest seenIds urls
      end
  end.

Definition listingUrls (hrefs : list string) : list ListingUrl.t :=
  listingUrls_loop hrefs ∅ [].

(** The [forEach] over the images of a listing page; [srcs] holds
    [img.src || ''] of each image. *)
Fixpoint images_loop (srcs : list string) (seenImages : gset string)
         (images : list string) : list string :=
  match srcs with
  | [] => images
  | src :: rest =>
      if negb (JsString.includes src "img.classistatic.de/api/v1/mo-prod/images/")
      then images_loop rest seenImages images
      else
        let baseUrl := default EmptyString (head (split "?" src)) in
        if bool_decide (baseUrl ∈ seenImages) then images_loop rest seenImages images
        else images_loop rest ({[baseUrl]} ∪ seenImages)
                         (images ++ [(baseUrl ++ "?rule=mo-1600")%string])%list
  end.

Definition pageImages (srcs : list string) : list string :=
  images_loop srcs ∅ [].

(** [s.split(sep)[0]] for a separator that is not empty: the text before
    the first place where [sep] stands, all of [s] where it stands
    nowhere. *)
Fixpoint before_first (sep s : string) : string :=
  if String.prefix sep s then EmptyString
  else match s with
       | EmptyString => EmptyString
       | String c t => String c (before_first sep t)
       end.

(** [details.title = document.title.split('f\u00fcr')[0].trim() || ''] *)
Definition pageTitle (documentTitle : string) : string :=
  JsString.trim (before_first ("f" ++ String JsString.u_uml "r") documentTitle).

(** * Specifications

    The predicates and reference definitions that the properties below
    are stated with, and a scripted outside world for concrete runs. *)

(** [never_throws m]: from every state [m] returns. *)
Definition never_throws {W A} (m : M W A) : Prop :=
  forall st, exists a, (m st).1 = Returned a.

(** [emits P m]: [m] only adds calls that satisfy [P] to the trace. *)
Definition emits {W A} (P : call -> Prop) (m : M W A) : Prop :=
  forall st, exists tr, trace (m st).2 = (trace st ++ tr)%list /\ Forall P tr.

(** [keeps f m]: [m] leaves the part [f] of the report as it was. *)
Definition keeps {W A X} (f : SyncLog.t -> X) (m : M W A) : Prop :=
  forall st, f (syncLog (m st).2) = f (syncLog st).

(** [yields Q m]: whatever [m] returns satisfies [Q]. *)
Definition yields {W A} (Q : A -> Prop) (m : M W A) : Prop :=
  forall st a st', m st = (Returned a, st') -> Q a.

(** [starts ev P m]: [m] first makes the calls [ev] and then only calls
    that satisfy [P]. *)
Definition starts {W A} (ev : list call) (P : call -> Prop) (m : M W A) : Prop :=
  forall st, exists tr, trace (m st).2 = (trace st ++ ev ++ tr)%list /\ Forall P tr.

(** The falsy values among the arguments of [generateFingerprint]. *)
Definition falsy_values : list value := [VUndefined; VNull; VNum 0; VStr ""].

(** The resolution that the design describes, on the keys of the table
    alone: exact key, then key equal up to case, then key contained up to
    case, each time the first entry in table order. *)
Definition normalize_three_tiers (value : option string) (map : table) : option string :=
  match value with
  | None => None
  | Some value =>
      if negb (JsString.truthy value) then None
      else
        match first_entry (fun key => String.eqb key value) map with
        | Some val => Some val
        | None =>
            match first_entry
                    (fun key => String.eqb (JsString.toLowerCase key)
                                           (JsString.toLowerCase value)) map with
            | Some val => Some val
            | None =>
                first_entry
                  (fun key => JsString.includes (JsString.toLowerCase value)
                                                (JsString.toLowerCase key)) map
            end
        end
  end.

Fixpoint is_digits (s : string) : bool :=
  match s with
  | EmptyString => true
  | String c t => JsString.is_digit c && is_digits t
  end.

(** [registration_at s pre month year post]: in [s], after [pre], stand two
    digits, a slash and four digits, followed by [post]. *)
Definition registration_at (s pre month year post : string) : Prop :=
  s = pre ++ month ++ "/" ++ year ++ post
  /\ String.length month = 2 /\ String.length year = 4
  /\ is_digits month = true /\ is_digits year = true.

(** The sentence of the design, read on every string that is not [null]:
    a text with the shape is reformatted to the year followed by the month,
    and any other text is returned as it is. *)
Definition parseRegistration_design : Prop :=
  forall s : string,
    ((exists pre month year post, registration_at s pre month year post) ->
     exists pre month year post,
       registration_at s pre month year post
       /\ parseRegistration (Some s) = Some (year ++ month))
    /\ ((forall pre month year post, ~ registration_at s pre month year post) ->
        parseRegistration (Some s) = Some s).

(** The text before the first space, and the text after it. *)
Fixpoint before_space (s : string) : string :=
  match s with
  | EmptyString => EmptyString
  | String c t => if Ascii.eqb c " " then EmptyString else String c (before_space t)
  end.

Fixpoint after_space (s : string) : string :=
  match s with
  | EmptyString => EmptyString
  | String c t => if Ascii.eqb c " " then t else after_space t
  end.

(** The first token of a text delimited by white space, and the text after
    the delimiter. *)
Fixpoint first_token (s : string) : string :=
  match s with
  | EmptyString => EmptyString
  | String c t => if JsString.is_space c then EmptyString else String c (first_token t)
  end.

Fixpoint after_token (s : string) : string :=
  match s with
  | EmptyString => EmptyString
  | String c t => if JsString.is_space c then t else after_token t
  end.

(** The sentence of the design, read on every title. *)
Definition parseMakeModel_design : Prop :=
  forall title : string,
    parseMakeModel (Some title)
    = match find (JsString.startsWith title) knownMakes with
      | Some make =>
          (Some make, Some (JsString.trim (JsString.drop (String.length make) title)))
      | None => (Some (first_token title), Some (after_token title))
      end.

(** [text] contains [word] when the case of letters is ignored: some part
    of [text] lowers to the same string as [word]. *)
Definition contains_ignoring_case (text word : string) : Prop :=
  exists pre mid post,
    text = pre ++ mid ++ post /\ JsString.toLowerCase mid = JsString.toLowerCase word.

(** The calls of the image pipeline. *)
Definition image_call (c : call) : Prop :=
  match c with
  | ProcessImage _ _ _ | StorageUpload _ => True
  | _ => False
  end.

(** The call of the storage bucket. *)
Definition upload_call (c : call) : Prop :=
  match c with StorageUpload _ => True | _ => False end.

(** The calls that follow the navigation to a listing page. *)
Definition detail_call (known : gset string) (c : call) : Prop :=
  match c with
  | HasFingerprint _ s => s = known
  | ProcessImage _ _ _ | StorageUpload _ => True
  | _ => False
  end.

(** The calls that scraping may make when the set of known fingerprints is
    [known]: no query for the set, no insertion, and membership tests on
    [known] only. *)
Definition scrape_call (known : gset string) (c : call) : Prop :=
  match c with
  | SelectFingerprints | InsertListing _ => False
  | HasFingerprint _ s => s = known
  | _ => True
  end.

(** Filters on the trace, one per kind of call that is counted. *)
Definition is_ListingPage (c : call) : bool :=
  match c with ListingPage _ => true | _ => false end.

Definition is_ProcessImage (c : call) : bool :=
  match c with ProcessImage _ _ _ => true | _ => false end.

Definition is_InsertListing (c : call) : bool :=
  match c with InsertListing _ => true | _ => false end.

(** The storage path of image [i] of a listing. *)
Definition image_file (slug : string) (i : nat) : string :=
  slug ++ "/" ++ string_of_Z (Z.of_nat i) ++ ".webp".

(** [unknown known l]: the fingerprint of [l] is outside the known set. *)
Definition unknown (known : gset string) (l : Listing.t) : Prop :=
  Listing.fingerprint l ∉ known.

(** The set that [getExistingFingerprints] builds from the answer of the
    database. *)
Definition loaded_set (r : reply (list string)) : gset string :=
  match r with
  | Data rows => list_to_set rows
  | Error _ => ∅
  end.

(** ** A scripted outside world, for concrete runs *)

Module Demo.

(** A page with the given title, mileage, registration, condition, colour
    and images, every other field empty as the extraction leaves it. *)
Definition raw (title mileage firstRegistration condition color : string)
           (images : list string) : Raw.t :=
  {| Raw.title := Some title;
     Raw.price := None;
     Raw.mileage := Some mileage;
     Raw.power := Some "";
     Raw.fuelType := Some "";
     Raw.transmission := Some "";
     Raw.firstRegistration := Some firstRegistration;
     Raw.owners := Some "";
     Raw.condition := Some condition;
     Raw.bodyType := Some "";
     Raw.series := Some "";
     Raw.variant := Some "";
     Raw.hubraum := Some "";
     Raw.driveType := Some "";
     Raw.seats := Some "";
     Raw.doors := Some "";
     Raw.emissionClass := Some "";
     Raw.emissionSticker := Some "";
     Raw.hu := Some "";
     Raw.climate := Some "";
     Raw.parkingAssist := Some "";
     Raw.airbags := Some "";
     Raw.colorManufacturer := Some "";
     Raw.color := Some color;
     Raw.interior := Some "";
     Raw.weight := Some "";
     Raw.cylinders := Some "";
     Raw.tankSize := Some "";
     Raw.subtitle := None;
     Raw.features := Some [];
     Raw.images := images |}.

(** A world without a state of its own: what each collaborator answers
    depends on the arguments of the call alone. *)
Record scenario : Type := Scenario {
  rows : reply (list string);
  search : string -> outcome (list string);
  page : string -> outcome Raw.t;
  broken_image : string -> bool
}.

Definition collaborators (s : scenario) : Collaborators unit :=
  {| select_fingerprints := fun w => (rows s, w);
     search_page := fun url w => (search s url, w);
     listing_page := fun url w => (page s url, w);
     screenshot_webp := fun imageUrl _ _ w =>
       (if broken_image s imageUrl then Thrown "net::ERR_CONNECTION_RESET"
        else Returned [82; 73; 70; 70]%Z, w);
     storage_upload := fun _ _ w => (Returned (Data tt), w);
     public_url := fun fileName => "https://storage.example/vehicle-images/" ++ fileName;
     random_hex := fun w => ("a1b2c3d4", w);
     date_now := fun w => ("2024-01-07T03:00:00.000Z", w);
     insert_row := fun _ w => (Data "1", w) |}.

Definition config (perDealer total : nat) (dealers : list Config.dealer) : Config.t :=
  Config.Make dealers (Config.Settings perDealer total 1200 800 true).

Definition start : state unit :=
  State tt (SyncLog.initial "2024-01-07T03:00:00.000Z") [].

(** Two pages of the same car, and a page of another one. *)
Definition bmw_a : Raw.t :=
  raw "BMW 320d Touring" "85.000 km" "03/2021" "Gebrauchtfahrzeug, Unfallfrei"
      "Schwarz Metallic" ["https://img.example/1.jpg"; "https://img.example/2.jpg"].
Definition bmw_b : Raw.t :=
  raw "BMW 320d Touring" "85000" "03/2021" "Neuwagen" "Blau" [].
Definition audi : Raw.t :=
  raw "Audi A4 Avant" "12.500 km" "11/2022" "" "Grau" ["https://img.example/3.jpg"].

Definition pages (url : string) : outcome Raw.t :=
  if String.eqb url "https://suchen.mobile.de/fahrzeuge/details.html?id=1" then Returned bmw_a
  else if String.eqb url "https://suchen.mobile.de/fahrzeuge/details.html?id=2" then Returned bmw_b
  else if String.eqb url "https://suchen.mobile.de/fahrzeuge/details.html?id=3" then Returned audi
  else Thrown "Navigation timeout of 60000 ms exceeded".

Definition id1 : string := "https://suchen.mobile.de/fahrzeuge/details.html?id=1".
Definition id2 : string := "https://suchen.mobile.de/fahrzeuge/details.html?id=2".
Definition id3 : string := "https://suchen.mobile.de/fahrzeuge/details.html?id=3".

(** Nothing known, every dealer lists the three pages, no image fails. *)
Definition fresh : scenario :=
  Scenario (Data []) (fun _ => Returned [id1; id2; id3]) pages (fun _ => false).

(** The fingerprint of the BMW is known from an earlier run. *)
Definition rerun : scenario :=
  Scenario (Data [fingerprint_of bmw_a]) (fun _ => Returned [id1; id2; id3]) pages
           (fun _ => false).

(** A page with fifteen photos, the fourth of which cannot be loaded. *)
Definition photo (n : nat) : string :=
  "https://img.classistatic.de/api/v1/mo-prod/images/"
  ++ string_of_Z (Z.of_nat n) ++ "?rule=mo-1600".

Definition gallery : Raw.t :=
  raw "Audi A4 Avant" "12.500 km" "11/2022" "" "Grau" (map photo (seq 1 15)).

Definition flaky : scenario :=
  Scenario (Data []) (fun _ => Returned [id3]) (fun _ => Returned gallery)
           (String.eqb (photo 4)).

End Demo.

(** ** Further predicates *)

(** Every character of [s] passes the test [P]. *)
Fixpoint string_forall (P : ascii -> bool) (s : string) : bool :=
  match s with
  | EmptyString => true
  | String c t => P c && string_forall P t
  end.

(** A lower-case hexadecimal digit. *)
Definition is_hex_char (c : ascii) : bool :=
  let n := N_of_ascii c in
  (((48 <=? n) && (n <=? 57)) || ((97 <=? n) && (n <=? 102)))%N.

(** A character that may stand in the base of a slug. *)
Definition is_slug_or_hyphen (c : ascii) : bool :=
  is_slug_char c || Ascii.eqb c "-".

(** The first character of [s] is a hyphen. *)
Definition starts_with_hyphen (s : string) : bool :=
  match s with
  | String c _ => Ascii.eqb c "-"
  | EmptyString => false
  end.

(** No hyphen of [s] is followed by another hyphen. *)
Fixpoint hyphens_single (s : string) : bool :=
  match s with
  | EmptyString => true
  | String c t => negb (Ascii.eqb c "-" && starts_with_hyphen t) && hyphens_single t
  end.

(** The last character of [s] is a hyphen. *)
Fixpoint ends_with_hyphen (s : string) : bool :=
  match s with
  | EmptyString => false
  | String c EmptyString => Ascii.eqb c "-"
  | String _ t => ends_with_hyphen t
  end.



(** A run in which every page that can be loaded is known already: the
    fingerprints of the two cars of [Demo.pages] are in the database. *)
Definition settled : Demo.scenario :=
  Demo.Scenario (Data [fingerprint_of Demo.bmw_a; fingerprint_of Demo.audi])
                (fun _ => Returned [Demo.id1; Demo.id2; Demo.id3]) Demo.pages
                (fun _ => false).

(** A run in which the query for the known fingerprints fails. *)
Definition offline : Demo.scenario :=
  Demo.Scenario (Error "connection refused")
                (fun _ => Returned [Demo.id1; Demo.id2; Demo.id3]) Demo.pages
                (fun _ => false).

(** A call that is no membership test on a set with elements. *)
Definition tests_empty_set (c : call) : Prop :=
  match c with
  | HasFingerprint _ s => s = ∅
  | _ => True
  end.



(** The calls that only read: no image is processed or stored and no
    listing is inserted. *)
Definition reading_call (c : call) : Prop :=
  match c with
  | ProcessImage _ _ _ | StorageUpload _ | InsertListing _ => False
  | _ => True
  end.



(** [from_link hrefs u]: the element [u] of [listingUrls] is the canonical
    address of its id, and the id is the number found in one of the links
    [hrefs]. *)
Definition from_link (hrefs : list string) (u : ListingUrl.t) : Prop :=
  ListingUrl.url u
  = "https://suchen.mobile.de/fahrzeuge/details.html?id=" ++ ListingUrl.id u
  /\ ListingUrl.id u <> ""
  /\ is_digits (ListingUrl.id u) = true
  /\ exists href, In href hrefs /\ search_listing_id href = Some (ListingUrl.id u).

(** The text of [src] before its first question mark. *)
Definition base_of (src : string) : string :=
  default EmptyString (head (split "?" src)).

(** [from_image srcs image]: [image] is the base of one of the sources
    [srcs] on the image server, with the rule for the large rendition. *)
Definition from_image (srcs : list string) (image : string) : Prop :=
  exists src,
    In src srcs
    /\ JsString.includes src "img.classistatic.de/api/v1/mo-prod/images/" = true
    /\ image = base_of src ++ "?rule=mo-1600".

(** * Properties *)

(** ** The embedding on the examples of the documentation *)

(** The test suite of RFC 1321, section A.5, and two block-boundary cases. *)
Example md5_empty : Md5.md5_hex "" = "d41d8cd98f00b204e9800998ecf8427e".
Proof. vm_compute. reflexivity. Qed.

Example md5_abc : Md5.md5_hex "abc" = "900150983cd24fb0d6963f7d28e17f72".
Proof. vm_compute. reflexivity. Qed.

Example md5_fox :
  Md5.md5_hex "The quick brown fox jumps over the lazy dog"
  = "9e107d9d372bb6826bd81d3542a419d6".
Proof. vm_compute. reflexivity. Qed.

Example md5_56 :
  Md5.md5_hex "aaaaaaaaaaaaaaaaaaaaaaaaaaaaaaaaaaaaaaaaaaaaaaaaaaaaaaaa"
  = "3b0c8ac703f828b04c6c197006d17218".
Proof. vm_compute. reflexivity. Qed.

Example md5_latin1 :
  Md5.md5_hex ("Citro" ++ String JsString.e_uml "n|C3|10|")
  = "fa761d3ea675de5fe51f080912271d2f".
Proof. vm_compute. reflexivity. Qed.

(** The examples of the documentation, run on the embedding. *)
Example parseMakeModel_mercedes :
  parseMakeModel (Some "Mercedes-Benz C 200") = (Some "Mercedes-Benz", Some "C 200").
Proof. vm_compute. reflexivity. Qed.

Example parseMakeModel_fallback :
  parseMakeModel (Some "Dacia Duster 1.5 dCi") = (Some "Dacia", Some "Duster 1.5 dCi").
Proof. vm_compute. reflexivity. Qed.

Example parseRegistration_reformat : parseRegistration (Some "03/2021") = Some "202103".
Proof. vm_compute. reflexivity. Qed.

Example parseRegistration_raw : parseRegistration (Some "2021") = Some "2021".
Proof. vm_compute. reflexivity. Qed.

Example parseColor_metallic : parseColor (Some "Schwarz Metallic") = (Some (Own "BLACK"), true).
Proof. vm_compute. reflexivity. Qed.

Example parseColor_plain : parseColor (Some "Schwarz") = (Some (Own "BLACK"), false).
Proof. vm_compute. reflexivity. Qed.

Example parsePower_both : parsePower (Some "110 kW (150 PS)") = (Some 110%Z, Some 150%Z).
Proof. vm_compute. reflexivity. Qed.

Example parseNumeric_km : parseNumeric (Some "85.000 km") = Some 85000%Z.
Proof. vm_compute. reflexivity. Qed.

Example parseInterior_both :
  parseInterior (Some "Kunstleder, Schwarz") = (Some (Own "LEATHER"), Some (Own "BLACK")).
Proof. vm_compute. reflexivity. Qed.

Example normalizeValue_exact : normalizeValue (Some "Benzin") [("Benzin", "PETROL")] = Some (Own "PETROL").
Proof. vm_compute. reflexivity. Qed.

Example generateSlug_example :
  generateSlug (VStr "Mercedes-Benz") (VStr "C 200") (VStr "2021") "a1b2c3d4"
  = "mercedes-benz-c-200-2021-a1b2c3d4".
Proof. vm_compute. reflexivity. Qed.

Example fingerprint_bmw :
  generateFingerprint (VStr "BMW") (VStr "320d") (VNum 85000) (VStr "202103")
  = "340c3f097964ef1b8be801ff7633eeda".
Proof. vm_compute. reflexivity. Qed.

(** ** Reasoning about computations *)

Section Combinators.
Context {W : Type}.
Implicit Types st : state W.

Lemma never_throws_ret {A} (a : A) : never_throws (W:=W) (ret a).
Proof. intros st. exists a. reflexivity. Qed.

Lemma never_throws_bind {A B} (m : M W A) (k : A -> M W B) :
  never_throws m -> (forall a, never_throws (k a)) -> never_throws (bind m k).
Proof.
  intros Hm Hk st. unfold bind.
  destruct (Hm st) as [a Ha]. destruct (m st) as [r st']. simpl in Ha. subst r.
  apply Hk.
Qed.

Lemma never_throws_try_catch {A} (m : M W A) (h : string -> M W A) :
  (forall e, never_throws (h e)) -> never_throws (try_catch m h).
Proof.
  intros Hh st. unfold try_catch. destruct (m st) as [[a | e] st'].
  - exists a. reflexivity.
  - apply Hh.
Qed.

Lemma never_throws_perform {A} ev (f : W -> A * W) : never_throws (perform ev f).
Proof. intros st. unfold perform. destruct (f (world st)) as [a w]. exists a. reflexivity. Qed.

Lemma never_throws_log_update f : never_throws (W:=W) (log_update f).
Proof. intros st. exists tt. reflexivity. Qed.

Lemma emits_ret {A} P (a : A) : emits (W:=W) P (ret a).
Proof. intros st. exists []. split; [symmetry; apply app_nil_r | constructor]. Qed.

Lemma emits_bind {A B} P (m : M W A) (k : A -> M W B) :
  emits P m -> (forall a, emits P (k a)) -> emits P (bind m k).
Proof.
  intros Hm Hk st. unfold bind.
  destruct (Hm st) as (tr1 & E1 & F1). destruct (m st) as [[a | e] st']; simpl in E1.
  - destruct (Hk a st') as (tr2 & E2 & F2).
    exists (tr1 ++ tr2)%list. split.
    + rewrite E2, E1. symmetry. apply app_assoc.
    + apply Forall_app. split; assumption.
  - exists tr1. split; assumption.
Qed.

Lemma emits_try_catch {A} P (m : M W A) (h : string -> M W A) :
  emits P m -> (forall e, emits P (h e)) -> emits P (try_catch m h).
Proof.
  intros Hm Hh st. unfold try_catch.
  destruct (Hm st) as (tr1 & E1 & F1). destruct (m st) as [[a | e] st']; simpl in E1.
  - exists tr1. split; assumption.
  - destruct (Hh e st') as (tr2 & E2 & F2).
    exists (tr1 ++ tr2)%list. split.
    + rewrite E2, E1. symmetry. apply app_assoc.
    + apply Forall_app. split; assumption.
Qed.

Lemma emits_perform {A} (P : call -> Prop) ev (f : W -> A * W) :
  Forall P ev -> emits P (perform ev f).
Proof.
  intros F st. unfold perform. destruct (f (world st)) as [a w].
  exists ev. split; [reflexivity | assumption].
Qed.

Lemma emits_await {A} (P : call -> Prop) ev (f : W -> outcome A * W) :
  Forall P ev -> emits P (await ev f).
Proof.
  intros F st. unfold await. destruct (f (world st)) as [a w].
  exists ev. split; [reflexivity | assumption].
Qed.

Lemma emits_log_update P f : emits (W:=W) P (log_update f).
Proof. intros st. exists []. split; [symmetry; apply app_nil_r | constructor]. Qed.

Lemma emits_weaken {A} (P Q : call -> Prop) (m : M W A) :
  (forall c, P c -> Q c) -> emits P m -> emits Q m.
Proof.
  intros PQ Hm st. destruct (Hm st) as (tr & E & F).
  exists tr. split; [assumption | eapply Forall_impl; eauto].
Qed.

Lemma keeps_ret {A X} (f : SyncLog.t -> X) (a : A) : keeps (W:=W) f (ret a).
Proof. intros st. reflexivity. Qed.

Lemma keeps_bind {A B X} (f : SyncLog.t -> X) (m : M W A) (k : A -> M W B) :
  keeps f m -> (forall a, keeps f (k a)) -> keeps f (bind m k).
Proof.
  intros Hm Hk st. unfold bind. specialize (Hm st).
  destruct (m st) as [[a | e] st']; simpl in Hm.
  - rewrite Hk. assumption.
  - assumption.
Qed.

Lemma keeps_try_catch {A X} (f : SyncLog.t -> X) (m : M W A) (h : string -> M W A) :
  keeps f m -> (forall e, keeps f (h e)) -> keeps f (try_catch m h).
Proof.
  intros Hm Hh st. unfold try_catch. specialize (Hm st).
  destruct (m st) as [[a | e] st']; simpl in Hm.
  - assumption.
  - rewrite Hh. assumption.
Qed.

Lemma keeps_perform {A X} (f : SyncLog.t -> X) ev (g : W -> A * W) :
  keeps f (perform ev g).
Proof. intros st. unfold perform. destruct (g (world st)). reflexivity. Qed.

Lemma keeps_await {A X} (f : SyncLog.t -> X) ev (g : W -> outcome A * W) :
  keeps f (await ev g).
Proof. intros st. unfold await. destruct (g (world st)). reflexivity. Qed.

Lemma keeps_log_update {X} (f : SyncLog.t -> X) g :
  (forall l, f (g l) = f l) -> keeps (W:=W) f (log_update g).
Proof. intros E st. apply E. Qed.

End Combinators.

Create HintDb script discriminated.

#[export] Hint Resolve never_throws_ret never_throws_perform never_throws_log_update
  emits_ret emits_log_update
  keeps_ret keeps_perform keeps_await : script.

(** Takes a computation apart along its [bind]s, [try]s and [match]es. *)
Ltac script_step :=
  match goal with
  | |- never_throws (bind _ _) => apply never_throws_bind; [ | intros ? ]
  | |- never_throws (try_catch _ _) => apply never_throws_try_catch; intros ?
  | |- emits _ (bind _ _) => apply emits_bind; [ | intros ? ]
  | |- emits _ (try_catch _ _) => apply emits_try_catch; [ | intros ? ]
  | |- emits _ (await _ _) => apply emits_await
  | |- emits _ (perform _ _) => apply emits_perform
  | |- keeps _ (bind _ _) => apply keeps_bind; [ | intros ? ]
  | |- keeps _ (try_catch _ _) => apply keeps_try_catch; [ | intros ? ]
  | |- keeps _ (log_update _) => apply keeps_log_update; intros ?; reflexivity
  | |- Forall _ [] => constructor
  | |- Forall _ (_ :: _) => constructor
  | |- context [match ?x with _ => _ end] => destruct x
  | |- _ => solve [auto with script]
  end.

Ltac script := repeat script_step.

(** ** The fingerprint *)

Lemma truthy_false_iff (v : value) : truthy v = false <-> In v falsy_values.
Proof.
  unfold falsy_values. split.
  - destruct v as [ | | z | s]; simpl; intros E; auto.
    + apply negb_false_iff, Z.eqb_eq in E. subst. auto.
    + destruct s; [auto | discriminate].
  - simpl. intros [<- | [<- | [<- | [<- | []]]]]; reflexivity.
Qed.

Lemma or_empty_falsy (v : value) : In v falsy_values -> or_empty v = "".
Proof. intros E. apply truthy_false_iff in E. unfold or_empty. rewrite E. reflexivity. Qed.

(** The fingerprint is the digest of the four substituted fields, joined
    by bars. *)
Lemma generateFingerprint_unfold (a b c d : value) :
  generateFingerprint a b c d
  = Md5.md5_hex (or_empty a ++ "|" ++ or_empty b ++ "|" ++ or_empty c ++ "|" ++ or_empty d).
Proof. reflexivity. Qed.

(** C10. Each falsy argument of [generateFingerprint] is replaced by the
    empty string before hashing: in every position two falsy values
    ([undefined], [null], [0], the empty string) give the same fingerprint,
    whatever the other three arguments are, and a mileage of [0] gives the
    fingerprint of an absent mileage. *)
Theorem generateFingerprint_falsy_arguments (x x' a b c : value) :
  In x falsy_values -> In x' falsy_values ->
  or_empty x = "" /\
  generateFingerprint x a b c = generateFingerprint x' a b c /\
  generateFingerprint a x b c = generateFingerprint a x' b c /\
  generateFingerprint a b x c = generateFingerprint a b x' c /\
  generateFingerprint a b c x = generateFingerprint a b c x' /\
  generateFingerprint a b (VNum 0) c = generateFingerprint a b VNull c.
Proof.
  intros Hx Hx'. rewrite !generateFingerprint_unfold.
  rewrite (or_empty_falsy x Hx), (or_empty_falsy x' Hx').
  repeat split; reflexivity.
Qed.

Lemma generateFingerprint_falsy_arguments_witness :
  In (VNum 0) falsy_values /\ In VUndefined falsy_values /\
  generateFingerprint (VStr "BMW") (VStr "320d") (VNum 0) (VStr "202103")
  = generateFingerprint (VStr "BMW") (VStr "320d") VUndefined (VStr "202103").
Proof.
  assert (H0 : In (VNum 0) falsy_values) by (simpl; right; right; left; reflexivity).
  assert (Hu : In VUndefined falsy_values) by (simpl; left; reflexivity).
  split; [exact H0 | split; [exact Hu | ]].
  exact (proj1 (proj2 (proj2 (proj2
    (generateFingerprint_falsy_arguments (VNum 0) VUndefined
       (VStr "BMW") (VStr "320d") (VStr "202103") H0 Hu))))).
Defined.

(** ** The lexical normalizer *)

Lemma own_property_first_entry (map : table) (key : string) :
  own_property map key = first_entry (fun k => String.eqb k key) map.
Proof.
  induction map as [ | [k v] rest IH]; simpl; [reflexivity | ].
  destruct (String.eqb k key); [reflexivity | apply IH].
Qed.

Lemma first_entry_In (test : string -> bool) (map : table) (val : string) :
  first_entry test map = Some val -> exists key, In (key, val) map /\ test key = true.
Proof.
  induction map as [ | [k v] rest IH]; simpl; [discriminate | ].
  destruct (test k) eqn:T.
  - intros [= <-]. exists k. auto.
  - intros E. destruct (IH E) as (key & I & Tk). exists key. auto.
Qed.

(** Where the looked-up text is no member name of [Object.prototype] (or
    is a key of the table) and the table maps to non-empty strings,
    [normalizeValue] is the three-tier resolution. *)
Lemma normalizeValue_three_tiers (value : string) (map : table) :
  (own_property map value = None -> ~ In value object_prototype_names) ->
  (forall key val, In (key, val) map -> val <> "") ->
  normalizeValue (Some value) map = Own <$> normalize_three_tiers (Some value) map.
Proof.
  intros Hproto Hvals. unfold normalizeValue, normalize_three_tiers.
  destruct (JsString.truthy value); simpl; [ | reflexivity].
  unfold get_property. rewrite <- own_property_first_entry.
  destruct (own_property map value) as [val | ] eqn:Own.
  - simpl. rewrite own_property_first_entry in Own.
    destruct (first_entry_In _ _ _ Own) as (key & I & _).
    destruct val; [exfalso; eapply Hvals; eauto | reflexivity].
  - destruct (existsb (String.eqb value) object_prototype_names) eqn:Ex.
    + exfalso. apply existsb_exists in Ex. destruct Ex as (n & I & E).
      apply String.eqb_eq in E. subst n. exact (Hproto eq_refl I).
    + simpl.
      destruct (first_entry _ map); [reflexivity | ].
      destruct (first_entry _ map); reflexivity.
Qed.

Lemma normalizeValue_null (map : table) :
  normalizeValue None map = None /\ normalizeValue (Some "") map = None.
Proof. split; reflexivity. Qed.

(** The three examples of the design hold on the code. *)
Example normalizeValue_case_tier :
  normalizeValue (Some "benzin") [("Benzin", "PETROL")] = Some (Own "PETROL").
Proof. reflexivity. Qed.

Example normalizeValue_substring_tier :
  normalizeValue (Some "Benzin Plus") [("Benzin", "PETROL")] = Some (Own "PETROL").
Proof. reflexivity. Qed.

Example normalizeValue_no_match :
  normalizeValue (Some "Strom") [("Benzin", "PETROL")] = None.
Proof. reflexivity. Qed.

(** An exact key whose entry is the empty string does not win: the test
    [if (map[value])] fails on it and the loops go on. *)
Example normalizeValue_empty_entry :
  normalizeValue (Some "benzin") [("BENZIN", "PETROL"); ("benzin", "")]
  = Some (Own "PETROL").
Proof. reflexivity. Qed.

(** C2. [normalizeValue("constructor", fuelTypeMap)]: no key of the table
    matches in any tier, and still the result is not [null]: [map[value]]
    finds the member that the object literal inherits from
    [Object.prototype], and the function returns it. *)
Theorem normalizeValue_inherited_member :
  normalize_three_tiers (Some "constructor") fuelTypeMap = None /\
  normalizeValue (Some "constructor") fuelTypeMap = Some (Inherited "constructor").
Proof. split; vm_compute; reflexivity. Qed.

(** ** The registration parser *)

Lemma match_registration_Some (s month year : string) :
  match_registration s = Some (month, year)
  <-> exists post, registration_at s "" month year post.
Proof.
  split.
  - destruct s as [ | m1 [ | m2 [ | sep [ | y1 [ | y2 [ | y3 [ | y4 post]]]]]]];
      simpl; try discriminate.
    destruct (Ascii.eqb sep "/") eqn:Sep; simpl; [ | discriminate].
    destruct (JsString.is_digit m1) eqn:D1; simpl; [ | discriminate].
    destruct (JsString.is_digit m2) eqn:D2; simpl; [ | discriminate].
    destruct (JsString.is_digit y1) eqn:D3; simpl; [ | discriminate].
    destruct (JsString.is_digit y2) eqn:D4; simpl; [ | discriminate].
    destruct (JsString.is_digit y3) eqn:D5; simpl; [ | discriminate].
    destruct (JsString.is_digit y4) eqn:D6; simpl; [ | discriminate].
    intros [= <- <-]. apply Ascii.eqb_eq in Sep. subst sep.
    exists post. unfold registration_at. simpl.
    rewrite D1, D2, D3, D4, D5, D6. auto.
  - intros (post & -> & L2 & L4 & D2 & D4).
    destruct month as [ | m1 [ | m2 [ | ? ?]]]; try discriminate.
    destruct year as [ | y1 [ | y2 [ | y3 [ | y4 [ | ? ?]]]]]; try discriminate.
    simpl in *.
    repeat match goal with
           | H : _ && _ = true |- _ => apply andb_prop in H; destruct H
           end.
    repeat match goal with H : JsString.is_digit _ = true |- _ => rewrite H; clear H end.
    reflexivity.
Qed.

Lemma registration_at_cons (c : ascii) (t pre month year post : string) :
  registration_at (String c t) (String c pre) month year post
  <-> registration_at t pre month year post.
Proof.
  unfold registration_at. simpl. split.
  - intros ([= ->] & R). auto.
  - intros (-> & R). auto.
Qed.

(** [search_registration] finds the leftmost occurrence, or none where
    there is none. *)
Lemma search_registration_spec (s : string) :
  match search_registration s with
  | Some (month, year) =>
      exists pre post,
        registration_at s pre month year post
        /\ forall pre' month' year' post',
             registration_at s pre' month' year' post' ->
             String.length pre <= String.length pre'
  | None => forall pre month year post, ~ registration_at s pre month year post
  end.
Proof.
  induction s as [ | c t IH].
  - simpl. intros pre month year post (E & L & _).
    destruct pre; destruct month; simpl in *; discriminate.
  - unfold search_registration; fold search_registration.
    destruct (match_registration (String c t)) as [[month year] | ] eqn:Here.
    + apply match_registration_Some in Here. destruct Here as (post & R).
      exists "", post. split; [exact R | intros; simpl; lia].
    + assert (Hnot : forall month year post,
                 ~ registration_at (String c t) "" month year post).
      { intros month year post R.
        assert (X : match_registration (String c t) = Some (month, year))
          by (apply match_registration_Some; eauto).
        congruence. }
      destruct (search_registration t) as [[month year] | ].
      * destruct IH as (pre & post & R & Left).
        exists (String c pre), post. split.
        -- apply registration_at_cons. exact R.
        -- intros pre' month' year' post' R'. destruct pre' as [ | c' pre''].
           ++ exfalso. eapply Hnot. exact R'.
           ++ assert (c' = c) by (destruct R' as (E & _); injection E; auto).
              subst c'. apply (proj1 (registration_at_cons _ _ _ _ _ _)) in R'.
              specialize (Left _ _ _ _ R'). simpl. lia.
      * intros pre month year post R. destruct pre as [ | c' pre'].
        -- eapply Hnot. exact R.
        -- assert (c' = c) by (destruct R as (E & _); injection E; auto).
           subst c'. apply (proj1 (registration_at_cons _ _ _ _ _ _)) in R.
           eapply IH. exact R.
Qed.

(** The empty string has no registration shape, and is not passed through:
    the guard [if (!regString) return null] answers [null]. *)
Lemma parseRegistration_empty_string :
  (forall pre month year post, ~ registration_at "" pre month year post)
  /\ parseRegistration (Some "") = None
  /\ ~ parseRegistration_design.
Proof.
  assert (N : forall pre month year post, ~ registration_at "" pre month year post).
  { intros pre month year post (E & L & _).
    destruct pre; destruct month; simpl in *; discriminate. }
  split; [exact N | split; [reflexivity | ]].
  intros D. destruct (D "") as [_ D2]. specialize (D2 N). discriminate D2.
Qed.

(** C6, amended. On a non-empty string [parseRegistration] answers the
    year followed by the month of the leftmost place where two digits, a
    slash and four digits stand in the text, when there is such a place, and
    the text itself when there is none; the empty string, like [null],
    gives [null].  The function is total: no input makes it throw. *)
Theorem parseRegistration_shape (s : string) :
  s <> "" ->
  ((exists pre month year post, registration_at s pre month year post) ->
   exists pre month year post,
     registration_at s pre month year post
     /\ (forall pre' month' year' post',
           registration_at s pre' month' year' post' ->
           String.length pre <= String.length pre')
     /\ parseRegistration (Some s) = Some (year ++ month))
  /\ ((forall pre month year post, ~ registration_at s pre month year post) ->
      parseRegistration (Some s) = Some s)
  /\ parseRegistration (Some "") = None
  /\ parseRegistration None = None
  /\ parseRegistration (Some "03/2021") = Some "202103".
Proof.
  intros Hne.
  cut (((exists pre month year post, registration_at s pre month year post) ->
        exists pre month year post,
          registration_at s pre month year post
          /\ (forall pre' month' year' post',
                registration_at s pre' month' year' post' ->
                String.length pre <= String.length pre')
          /\ parseRegistration (Some s) = Some (year ++ month))
       /\ ((forall pre month year post, ~ registration_at s pre month year post) ->
           parseRegistration (Some s) = Some s)).
  { intros [A B]. repeat split; solve [exact A | exact B | reflexivity]. }
  unfold parseRegistration.
  destruct s as [ | c t]; [congruence | ]. simpl JsString.truthy. simpl negb.
  pose proof (search_registration_spec (String c t)) as Spec.
  destruct (search_registration (String c t)) as [[month year] | ].
  - destruct Spec as (pre & post & R & Left). split.
    + intros _. exists pre, month, year, post. auto.
    + intros No. exfalso. eapply No. exact R.
  - split.
    + intros (pre & month & year & post & R). exfalso. eapply Spec. exact R.
    + reflexivity.
Qed.

Lemma parseRegistration_shape_witness :
  "2021" <> "" /\ parseRegistration (Some "2021") = Some "2021".
Proof.
  assert (Hne : "2021" <> "") by discriminate.
  split; [exact Hne | ].
  apply (proj1 (proj2 (parseRegistration_shape "2021" Hne))).
  intros pre month year post R.
  pose proof (search_registration_spec "2021") as Spec.
  simpl in Spec. exact (Spec pre month year post R).
Defined.

(** The shape is looked for anywhere in the text. *)
Example parseRegistration_inside_text :
  parseRegistration (Some "EZ 03/2021 (neu)") = Some "202103".
Proof. reflexivity. Qed.

(** ** The make and model parser *)

Lemma split_not_nil (sep : ascii) (s : string) : split sep s <> [].
Proof.
  destruct s as [ | c t]; simpl; [discriminate | ].
  destruct (Ascii.eqb c sep); [discriminate | ].
  destruct (split sep t); discriminate.
Qed.

Lemma join_split (sep : ascii) (s : string) :
  join (String sep EmptyString) (split sep s) = s.
Proof.
  induction s as [ | c t IH]; [reflexivity | ].
  pose proof (split_not_nil sep t) as NN.
  cbn [split]. destruct (Ascii.eqb c sep) eqn:E.
  - apply Ascii.eqb_eq in E. subst c.
    destruct (split sep t) as [ | h r]; [congruence | ].
    change (join (String sep "") ("" :: h :: r))
      with ("" ++ String sep "" ++ join (String sep "") (h :: r)).
    rewrite IH. reflexivity.
  - destruct (split sep t) as [ | h r]; [congruence | ].
    rewrite <- IH. destruct r; reflexivity.
Qed.

Lemma head_split_space (s : string) : head (split " " s) = Some (before_space s).
Proof.
  induction s as [ | c t IH]; simpl; [reflexivity | ].
  destruct (Ascii.eqb c " "); [reflexivity | ].
  destruct (split " " t) as [ | h r]; simpl in *; congruence.
Qed.

Lemma join_tail_split_space (s : string) :
  join " " (tail (split " " s)) = after_space s.
Proof.
  induction s as [ | c t IH]; simpl; [reflexivity | ].
  destruct (Ascii.eqb c " ").
  - simpl. apply join_split.
  - destruct (split " " t) as [ | h r]; simpl in *; assumption.
Qed.

Lemma parseMakeModel_loop_find (title : string) (makes : list string) :
  parseMakeModel_loop title makes
  = match find (JsString.startsWith title) makes with
    | Some make => Some (make, JsString.trim (JsString.drop (String.length make) title))
    | None => None
    end.
Proof.
  induction makes as [ | make rest IH]; simpl; [reflexivity | ].
  destruct (JsString.startsWith title make); [reflexivity | apply IH].
Qed.

(** The sentence fails at two titles.  The empty title gets no make and
    no model at all: the guard [if (!title)] answers two [null]s.  And the
    fallback splits at space characters only: in a title with a tab the
    make runs on to the first space. *)
Lemma parseMakeModel_empty_or_tab_title :
  let title := "Dacia" ++ String JsString.tab "Duster 1.5" in
  parseMakeModel (Some "") = (None, None)
  /\ parseMakeModel (Some title)
     = (Some ("Dacia" ++ String JsString.tab "Duster"), Some "1.5")
  /\ first_token title = "Dacia"
  /\ ~ parseMakeModel_design.
Proof.
  split; [reflexivity | ].
  split; [vm_compute; reflexivity | ].
  split; [vm_compute; reflexivity | ].
  intros D. specialize (D ""). vm_compute in D. discriminate D.
Qed.

(** C7, amended. On a non-empty title [parseMakeModel] takes the first name
    of [knownMakes] that is a prefix of the title as the make and the rest
    of the title, trimmed, as the model; where no name is a prefix, the make
    is the text before the first space character and the model the text
    after it.  The empty title gives [null] for both.  The title
    "Mercedes-Benz C 200" gives "Mercedes-Benz" and "C 200". *)
Theorem parseMakeModel_prefix_then_first_word (title : string) :
  title <> "" ->
  parseMakeModel (Some title)
  = match find (JsString.startsWith title) knownMakes with
    | Some make =>
        (Some make, Some (JsString.trim (JsString.drop (String.length make) title)))
    | None => (Some (before_space title), Some (after_space title))
    end
  /\ parseMakeModel (Some "") = (None, None)
  /\ parseMakeModel (Some "Mercedes-Benz C 200") = (Some "Mercedes-Benz", Some "C 200").
Proof.
  intros Hne. split; [ | split; vm_compute; reflexivity].
  unfold parseMakeModel.
  destruct title as [ | c t]; [congruence | ]. simpl JsString.truthy. simpl negb.
  rewrite parseMakeModel_loop_find.
  destruct (find _ knownMakes); [reflexivity | ].
  rewrite head_split_space, join_tail_split_space. reflexivity.
Qed.

Lemma parseMakeModel_prefix_then_first_word_witness :
  "Land Rover Defender 110" <> "" /\
  parseMakeModel (Some "Land Rover Defender 110") = (Some "Land Rover", Some "Defender 110").
Proof.
  assert (Hne : "Land Rover Defender 110" <> "") by discriminate.
  split; [exact Hne | ].
  exact (proj1 (parseMakeModel_prefix_then_first_word "Land Rover Defender 110" Hne)).
Defined.

(** ** Containment up to case *)

Lemma append_cons (c : ascii) (s t : string) : String c s ++ t = String c (s ++ t).
Proof. reflexivity. Qed.

Lemma prefix_spec (p s : string) :
  String.prefix p s = true <-> exists post, s = p ++ post.
Proof.
  revert s. induction p as [ | c p IH]; intros s; simpl.
  - split; [intros _; exists s; reflexivity | intros _; destruct s; reflexivity].
  - destruct s as [ | d s].
    + split; [discriminate | intros (post & E); discriminate E].
    + simpl. destruct (ascii_dec c d) as [<- | Ne].
      * rewrite IH. split.
        -- intros (post & ->). exists post. reflexivity.
        -- intros (post & E). injection E as E. exists post. exact E.
      * split; [discriminate | ].
        intros (post & E). injection E as E1 _. congruence.
Qed.

Lemma includes_spec (s p : string) :
  JsString.includes s p = true <-> exists pre post, s = pre ++ p ++ post.
Proof.
  induction s as [ | c t IH]; cbn [JsString.includes].
  - rewrite orb_false_r, prefix_spec. split.
    + intros (post & E). exists "", post. exact E.
    + intros (pre & post & E). destruct pre; [ | discriminate E].
      exists post. exact E.
  - rewrite orb_true_iff, prefix_spec, IH. split.
    + intros [(post & E) | (pre & post & E)].
      * exists "", post. exact E.
      * exists (String c pre), post. rewrite append_cons, <- E. reflexivity.
    + intros (pre & post & E). destruct pre as [ | d pre].
      * left. exists post. exact E.
      * right. rewrite append_cons in E. injection E as _ E. exists pre, post. exact E.
Qed.

Lemma toLowerCase_app (a b : string) :
  JsString.toLowerCase (a ++ b) = JsString.toLowerCase a ++ JsString.toLowerCase b.
Proof.
  induction a as [ | c a IH]; [reflexivity | ].
  rewrite append_cons. simpl. rewrite IH. reflexivity.
Qed.

Lemma toLowerCase_split (s a b : string) :
  JsString.toLowerCase s = a ++ b ->
  exists a' b', s = a' ++ b' /\ JsString.toLowerCase a' = a /\ JsString.toLowerCase b' = b.
Proof.
  revert s. induction a as [ | c a IH]; intros s E.
  - exists "", s. auto.
  - destruct s as [ | d s]; [discriminate E | ].
    rewrite append_cons in E. simpl in E. injection E as Ec E.
    destruct (IH s E) as (a' & b' & -> & <- & <-).
    exists (String d a'), b'. simpl. rewrite Ec. auto.
Qed.

Lemma includes_toLowerCase (text word : string) :
  JsString.toLowerCase word = word ->
  JsString.includes (JsString.toLowerCase text) word = true
  <-> contains_ignoring_case text word.
Proof.
  intros Low. rewrite includes_spec. unfold contains_ignoring_case. split.
  - intros (pre & post & E).
    apply toLowerCase_split in E. destruct E as (pre' & rest & -> & <- & E).
    apply toLowerCase_split in E. destruct E as (mid & post' & -> & E & <-).
    exists pre', mid, post'. rewrite Low. auto.
  - intros (pre & mid & post & -> & E).
    exists (JsString.toLowerCase pre), (JsString.toLowerCase post).
    rewrite !toLowerCase_app, E, Low. reflexivity.
Qed.

(** The test of the code on a condition text that may be absent. *)
Lemma condition_includes_spec (condition : option string) (word : string) :
  JsString.toLowerCase word = word ->
  condition_includes condition word = true
  <-> exists text, condition = Some text /\ contains_ignoring_case text word.
Proof.
  intros Low. destruct condition as [text | ]; simpl.
  - rewrite (includes_toLowerCase text word Low). split.
    + intros C. exists text. auto.
    + intros (text' & [= <-] & C). exact C.
  - split; [discriminate | intros (text & E & _); discriminate E].
Qed.

(** ** The image loop *)

Section ScriptProperties.
Context {W : Type} {outside : Collaborators W}.

Lemma uploadImage_emits imageBuffer slug i :
  emits image_call (uploadImage (W:=W) imageBuffer slug i).
Proof. unfold uploadImage. script; exact I. Qed.

Lemma processAndUploadImage_emits imageUrl slug i config :
  emits image_call (processAndUploadImage (W:=W) imageUrl slug i config).
Proof.
  unfold processAndUploadImage. cbv zeta. script; try exact I.
  apply uploadImage_emits.
Qed.

Lemma processAndUploadImage_keeps {X} (f : SyncLog.t -> X) imageUrl slug i config :
  keeps f (processAndUploadImage (W:=W) imageUrl slug i config).
Proof. unfold processAndUploadImage, uploadImage. cbv zeta. script. Qed.

(** The loop always runs to its end, whatever happens to the images. *)
Lemma image_loop_never_throws images slug config todo i imageUrls :
  never_throws (image_loop (W:=W) images slug config todo i imageUrls).
Proof.
  revert i imageUrls. induction todo as [ | todo IH]; intros i imageUrls; simpl.
  - script.
  - apply never_throws_bind; [ | intros a; apply IH].
    apply never_throws_try_catch. intros e. script.
Qed.

Lemma image_loop_emits images slug config todo i imageUrls :
  emits image_call (image_loop (W:=W) images slug config todo i imageUrls).
Proof.
  revert i imageUrls. induction todo as [ | todo IH]; intros i imageUrls; simpl.
  - script.
  - apply emits_bind; [ | intros a; apply IH].
    apply emits_try_catch; [ | intros e; script].
    apply emits_bind; [apply processAndUploadImage_emits | intros a; script].
Qed.

(** A failed image leaves no entry in [syncLog.errors], and the loop
    touches no counter but [imagesUploaded]. *)
Lemma image_loop_keeps {X} (f : SyncLog.t -> X) images slug config todo i imageUrls :
  (forall l, f (SyncLog.incr_images l) = f l) ->
  keeps f (image_loop (W:=W) images slug config todo i imageUrls).
Proof.
  intros Hf. revert i imageUrls.
  induction todo as [ | todo IH]; intros i imageUrls; simpl.
  - script.
  - apply keeps_bind; [ | intros a; apply IH].
    apply keeps_try_catch; [ | intros e; script].
    apply keeps_bind; [apply processAndUploadImage_keeps | intros a].
    destruct a as [u | ]; [ | script].
    destruct (JsString.truthy u); [ | script].
    apply keeps_bind; [apply keeps_log_update; exact Hf | intros; script].
Qed.

End ScriptProperties.

(** ** One listing page *)

Section ListingProperties.
Context {W : Type} {outside : Collaborators W}.

(** What is known of a listing that [scrapeListingDetails] assembled. *)
Lemma scrapeListingDetails_Scraped url config known (st st' : state W) listing :
  scrapeListingDetails url config known st = (Returned (Scraped listing), st') ->
  exists rawData w,
    listing_page url (world st) = (Returned rawData, w)
    /\ (fingerprint_of rawData ∉ known)
    /\ Listing.fingerprint listing = fingerprint_of rawData
    /\ Listing.make listing = (parseMakeModel (Raw.title rawData)).1
    /\ Listing.model listing = (parseMakeModel (Raw.title rawData)).2
    /\ Listing.mileage listing = parseNumeric (Raw.mileage rawData)
    /\ Listing.first_registration listing
       = parseRegistration (Raw.firstRegistration rawData)
    /\ Listing.condition listing
       = (if condition_includes (Raw.condition rawData) "neuwagen"
          then Some "NEW" else Some "USED")
    /\ Listing.accident_damaged listing
       = (if condition_includes (Raw.condition rawData) "unfallfrei"
          then Some false else None)
    /\ Listing.source_url listing = url.
Proof.
  unfold scrapeListingDetails, fingerprint_of, bind, await, perform. simpl.
  destruct (listing_page url (world st)) as [[rawData | e] w]; [ | discriminate].
  destruct (parseMakeModel (Raw.title rawData)) as [make model] eqn:MM. simpl.
  destruct (bool_decide _) eqn:Known; [discriminate | ].
  apply bool_decide_eq_false in Known.
  destruct (parseColor _) as [color metallic].
  destruct (parseInterior _) as [interiorMaterial interiorColor].
  destruct (parsePower _) as [powerKw powerPs].
  simpl. destruct (random_hex w) as [random w1]. simpl.
  destruct (image_loop _ _ _ _ _ _ _) as [[imageUrls | e] st2]; [ | discriminate].
  simpl. destruct (date_now (world st2)) as [now w3]. simpl.
  intros [= <- <-]. exists rawData, w. rewrite MM. simpl.
  repeat split; try reflexivity; assumption.
Qed.

(** A page whose fingerprint is known: the function returns right after
    the membership test. *)
Lemma scrapeListingDetails_known url config known (st : state W) rawData w :
  listing_page url (world st) = (Returned rawData, w) ->
  fingerprint_of rawData ∈ known ->
  scrapeListingDetails url config known st
  = (Returned (Skipped (Raw.title rawData)),
     State w (syncLog st)
           (trace st ++ [ListingPage url]
                     ++ [HasFingerprint (fingerprint_of rawData) known])).
Proof.
  intros Page Known.
  unfold scrapeListingDetails, fingerprint_of in *. unfold bind, await, perform. simpl.
  rewrite Page. destruct (parseMakeModel (Raw.title rawData)) as [make model]. simpl.
  rewrite bool_decide_eq_true_2 by exact Known.
  unfold ret. rewrite <- app_assoc. reflexivity.
Qed.

(** A page whose fingerprint is not known is assembled into a listing,
    whatever happens to its images. *)
Lemma scrapeListingDetails_new url config known (st : state W) rawData w :
  listing_page url (world st) = (Returned rawData, w) ->
  fingerprint_of rawData ∉ known ->
  exists listing st',
    scrapeListingDetails url config known st = (Returned (Scraped listing), st').
Proof.
  intros Page New.
  unfold scrapeListingDetails, fingerprint_of in *. unfold bind, await, perform. simpl.
  rewrite Page. destruct (parseMakeModel (Raw.title rawData)) as [make model]. simpl.
  rewrite bool_decide_eq_false_2 by exact New.
  destruct (parseColor _) as [color metallic].
  destruct (parseInterior _) as [interiorMaterial interiorColor].
  destruct (parsePower _) as [powerKw powerPs].
  simpl. destruct (random_hex w) as [random w1]. simpl.
  match goal with
  | |- context [image_loop ?a ?b ?c ?d ?e ?f ?s] =>
      destruct (image_loop_never_throws a b c d e f s) as [imageUrls Loop];
      destruct (image_loop a b c d e f s) as [r st2]
  end.
  simpl in Loop. subst r. simpl.
  destruct (date_now (world st2)) as [now w3]. simpl.
  eexists _, _. reflexivity.
Qed.

End ListingProperties.

(** C1. The fingerprint of an assembled listing is [generateFingerprint] of
    its make, model, mileage and first registration and of nothing else:
    equal arguments give equal digests, two listings that agree on the four
    fields have the same fingerprint whatever their pages, URLs, images or
    other fields are, and the digest of ("BMW", "320d", 85000, "202103")
    is not the digest of the same with mileage 85001. *)
Theorem fingerprint_of_four_fields
        {W1 W2 : Type} {outside1 : Collaborators W1} {outside2 : Collaborators W2}
        url1 url2 config1 config2 known1 known2
        (st1 st1' : state W1) (st2 st2' : state W2) (l1 l2 : Listing.t) :
  scrapeListingDetails url1 config1 known1 st1 = (Returned (Scraped l1), st1') ->
  scrapeListingDetails url2 config2 known2 st2 = (Returned (Scraped l2), st2') ->
  Listing.make l1 = Listing.make l2 ->
  Listing.model l1 = Listing.model l2 ->
  Listing.mileage l1 = Listing.mileage l2 ->
  Listing.first_registration l1 = Listing.first_registration l2 ->
  Listing.fingerprint l1
  = generateFingerprint (of_string (Listing.make l1)) (of_string (Listing.model l1))
                        (of_number (Listing.mileage l1))
                        (of_string (Listing.first_registration l1))
  /\ Listing.fingerprint l1 = Listing.fingerprint l2
  /\ (forall a b c d a' b' c' d' : value,
        a = a' -> b = b' -> c = c' -> d = d' ->
        generateFingerprint a b c d = generateFingerprint a' b' c' d')
  /\ generateFingerprint (VStr "BMW") (VStr "320d") (VNum 85000) (VStr "202103")
     <> generateFingerprint (VStr "BMW") (VStr "320d") (VNum 85001) (VStr "202103").
Proof.
  intros S1 S2 Emake Emodel Emileage Ereg.
  assert (F : forall W (outside : Collaborators W) url config known (st st' : state W) l,
             scrapeListingDetails url config known st = (Returned (Scraped l), st') ->
             Listing.fingerprint l
             = generateFingerprint (of_string (Listing.make l)) (of_string (Listing.model l))
                                   (of_number (Listing.mileage l))
                                   (of_string (Listing.first_registration l))).
  { intros W C url config known st st' l S.
    apply scrapeListingDetails_Scraped in S.
    destruct S as (rawData & w & _ & _ & -> & -> & -> & -> & -> & _).
    unfold fingerprint_of. destruct (parseMakeModel (Raw.title rawData)). reflexivity. }
  split; [exact (F _ _ _ _ _ _ _ _ S1) | ].
  split; [rewrite (F _ _ _ _ _ _ _ _ S1), (F _ _ _ _ _ _ _ _ S2); congruence | ].
  split; [intros; subst; reflexivity | ].
  vm_compute. discriminate.
Qed.

(** C9. In every assembled listing [condition] is "NEW" or "USED", never
    [null]: "NEW" exactly when the raw condition text contains "neuwagen"
    up to case, "USED" otherwise, also when the page has no condition
    field; and [accident_damaged] is [false] or [null], never [true]:
    [false] exactly when the text contains "unfallfrei" up to case. *)
Theorem condition_and_accident_defaults
        {W : Type} {outside : Collaborators W} url config known (st st' : state W) listing :
  scrapeListingDetails url config known st = (Returned (Scraped listing), st') ->
  exists rawData w,
    listing_page url (world st) = (Returned rawData, w)
    /\ Listing.condition listing <> None
    /\ (Listing.condition listing = Some "NEW"
        <-> exists text, Raw.condition rawData = Some text
                         /\ contains_ignoring_case text "neuwagen")
    /\ (Listing.condition listing <> Some "NEW" -> Listing.condition listing = Some "USED")
    /\ (Raw.condition rawData = None -> Listing.condition listing = Some "USED")
    /\ Listing.accident_damaged listing <> Some true
    /\ (Listing.accident_damaged listing = Some false
        <-> exists text, Raw.condition rawData = Some text
                         /\ contains_ignoring_case text "unfallfrei")
    /\ (Listing.accident_damaged listing <> Some false
        -> Listing.accident_damaged listing = None).
Proof.
  intros S. apply scrapeListingDetails_Scraped in S.
  destruct S as (rawData & w & Page & _ & _ & _ & _ & _ & _ & Cond & Acc & _).
  exists rawData, w. split; [exact Page | ].
  rewrite Cond, Acc.
  rewrite <- (condition_includes_spec (Raw.condition rawData) "neuwagen" eq_refl).
  rewrite <- (condition_includes_spec (Raw.condition rawData) "unfallfrei" eq_refl).
  destruct (condition_includes (Raw.condition rawData) "neuwagen") eqn:New;
    destruct (condition_includes (Raw.condition rawData) "unfallfrei") eqn:Free;
    repeat split; try congruence; try discriminate;
      intros E; rewrite E in *; simpl in *; congruence.
Qed.

Lemma fingerprint_of_four_fields_witness :
  exists (l1 l2 : Listing.t) (st1 st2 : state unit),
    scrapeListingDetails (outside:=Demo.collaborators Demo.fresh) Demo.id1
                         (Demo.config 100 200 []) ∅ Demo.start
    = (Returned (Scraped l1), st1)
    /\ scrapeListingDetails (outside:=Demo.collaborators Demo.fresh) Demo.id2
                            (Demo.config 100 200 []) ∅ Demo.start
       = (Returned (Scraped l2), st2)
    /\ Listing.images l1 <> Listing.images l2
    /\ Listing.fingerprint l1 = Listing.fingerprint l2.
Proof.
  destruct (scrapeListingDetails (outside:=Demo.collaborators Demo.fresh) Demo.id1
                                 (Demo.config 100 200 []) ∅ Demo.start)
    as [[[t1 | l1] | e1] st1] eqn:S1;
    try (vm_compute in S1; discriminate S1).
  destruct (scrapeListingDetails (outside:=Demo.collaborators Demo.fresh) Demo.id2
                                 (Demo.config 100 200 []) ∅ Demo.start)
    as [[[t2 | l2] | e2] st2] eqn:S2;
    try (vm_compute in S2; discriminate S2).
  pose proof S1 as C1. vm_compute in C1. injection C1 as E1 _.
  pose proof S2 as C2. vm_compute in C2. injection C2 as E2 _.
  exists l1, l2, st1, st2.
  split; [reflexivity | split; [reflexivity | ]].
  split; [rewrite <- E1, <- E2; discriminate | ].
  refine (proj1 (proj2 (fingerprint_of_four_fields _ _ _ _ _ _ _ _ _ _ l1 l2 S1 S2 _ _ _ _)));
    rewrite <- E1, <- E2; reflexivity.
Defined.

Lemma condition_and_accident_defaults_witness :
  exists (listing : Listing.t) (st' : state unit),
    scrapeListingDetails (outside:=Demo.collaborators Demo.fresh) Demo.id3
                         (Demo.config 100 200 []) ∅ Demo.start
    = (Returned (Scraped listing), st')
    /\ Listing.condition listing <> None
    /\ Listing.accident_damaged listing <> Some true.
Proof.
  destruct (scrapeListingDetails (outside:=Demo.collaborators Demo.fresh) Demo.id3
                                 (Demo.config 100 200 []) ∅ Demo.start)
    as [[[t | listing] | e] st'] eqn:S;
    try (vm_compute in S; discriminate S).
  exists listing, st'. split; [reflexivity | ].
  destruct (condition_and_accident_defaults _ _ _ _ _ _ S)
    as (rawData & w & _ & NotNull & _ & _ & _ & NotTrue & _).
  split; assumption.
Defined.

(** ** Dealers and the whole run *)

Section RunProperties.
Context {W : Type} {outside : Collaborators W}.

Lemma image_call_scrape_call known c : image_call c -> scrape_call known c.
Proof. destruct c; simpl; tauto. Qed.

Lemma scrapeListingDetails_emits url config known :
  emits (scrape_call known) (scrapeListingDetails (W:=W) url config known).
Proof.
  unfold scrapeListingDetails.
  apply emits_bind; [apply emits_await; repeat constructor | intros rawData].
  destruct (parseMakeModel _) as [make model].
  apply emits_bind; [apply emits_perform; repeat constructor | intros [ | ]].
  - script.
  - destruct (parseColor _), (parseInterior _), (parsePower _).
    apply emits_bind; [script | intros random].
    apply emits_bind; [ | intros imageUrls; script].
    eapply emits_weaken; [apply image_call_scrape_call | apply image_loop_emits].
Qed.

Lemma scrapeListingDetails_keeps_errors url config known :
  keeps SyncLog.errors (scrapeListingDetails (W:=W) url config known).
Proof.
  unfold scrapeListingDetails.
  apply keeps_bind; [script | intros rawData].
  destruct (parseMakeModel _) as [make model].
  apply keeps_bind; [script | intros [ | ]].
  - script.
  - destruct (parseColor _), (parseInterior _), (parsePower _).
    apply keeps_bind; [script | intros random].
    apply keeps_bind; [ | intros imageUrls; script].
    apply image_loop_keeps. reflexivity.
Qed.

Lemma scrapeDealer_round_never_throws url config known listings :
  never_throws (scrapeDealer_round (W:=W) url config known listings).
Proof. unfold scrapeDealer_round. script. Qed.

Lemma scrapeDealer_round_emits url config known listings :
  emits (scrape_call known) (scrapeDealer_round (W:=W) url config known listings).
Proof.
  unfold scrapeDealer_round.
  apply emits_try_catch; [ | intros e; script].
  apply emits_bind; [apply scrapeListingDetails_emits | intros [t | l]; script].
Qed.

Lemma scrapeDealer_loop_never_throws urls config known listings :
  never_throws (scrapeDealer_loop (W:=W) urls config known listings).
Proof.
  revert listings. induction urls as [ | url rest IH]; intros listings; simpl.
  - script.
  - apply never_throws_bind; [apply scrapeDealer_round_never_throws | intros a; apply IH].
Qed.

Lemma scrapeDealer_loop_emits urls config known listings :
  emits (scrape_call known) (scrapeDealer_loop (W:=W) urls config known listings).
Proof.
  revert listings. induction urls as [ | url rest IH]; intros listings; simpl.
  - script.
  - apply emits_bind; [apply scrapeDealer_round_emits | intros a; apply IH].
Qed.

Lemma scrapeDealer_never_throws dealerUrl config known :
  never_throws (scrapeDealer (W:=W) dealerUrl config known).
Proof. unfold scrapeDealer. script. Qed.

Lemma scrapeDealer_emits dealerUrl config known :
  emits (scrape_call known) (scrapeDealer (W:=W) dealerUrl config known).
Proof.
  unfold scrapeDealer. cbv zeta.
  apply emits_try_catch; [ | intros e; script].
  apply emits_bind; [apply emits_await; repeat constructor | intros urls].
  apply scrapeDealer_loop_emits.
Qed.

Lemma main_dealers_never_throws dealers config known allListings :
  never_throws (main_dealers (W:=W) dealers config known allListings).
Proof.
  revert allListings. induction dealers as [ | d rest IH]; intros allListings; simpl.
  - script.
  - apply never_throws_bind; [script | intros _].
    apply never_throws_bind; [apply scrapeDealer_never_throws | intros listings].
    apply never_throws_bind; [script | intros _].
    destruct (_ <=? _)%nat; [script | apply IH].
Qed.

Lemma main_dealers_emits dealers config known allListings :
  emits (scrape_call known) (main_dealers (W:=W) dealers config known allListings).
Proof.
  revert allListings. induction dealers as [ | d rest IH]; intros allListings; simpl.
  - script.
  - apply emits_bind; [script | intros _].
    apply emits_bind; [apply scrapeDealer_emits | intros listings].
    apply emits_bind; [script | intros _].
    destruct (_ <=? _)%nat; [script | apply IH].
Qed.

(** The insertion loop inserts the listings it is given, in order, and
    calls nothing else. *)
Lemma main_insert_trace allListings (st : state W) :
  exists st',
    main_insert allListings st = (Returned tt, st')
    /\ trace st' = (trace st ++ map InsertListing allListings)%list.
Proof.
  revert st. induction allListings as [ | l rest IH]; intros st; simpl.
  - exists st. split; [reflexivity | symmetry; apply app_nil_r].
  - unfold insertListing. unfold bind, perform, log_update, ret. simpl.
    destruct (insert_row l (world st)) as [[id | message] w]; simpl;
      match goal with
      | |- context [main_insert rest ?s] =>
          destruct (IH s) as (st' & Run & Tr); exists st'; rewrite Run;
            split; [reflexivity | rewrite Tr; simpl; rewrite <- app_assoc; reflexivity]
      end.
Qed.

End RunProperties.

Section Yields.
Context {W : Type}.

Lemma yields_ret {A} (Q : A -> Prop) (a : A) : Q a -> yields (W:=W) Q (ret a).
Proof. intros Qa st a' st' [= <- _]. exact Qa. Qed.

Lemma yields_bind {A B} (Q1 : A -> Prop) (Q2 : B -> Prop) (m : M W A) (k : A -> M W B) :
  yields Q1 m -> (forall a, Q1 a -> yields Q2 (k a)) -> yields Q2 (bind m k).
Proof.
  intros Hm Hk st b st'. unfold bind.
  destruct (m st) as [[a | e] st1] eqn:E; [ | discriminate].
  apply (Hk a (Hm _ _ _ E)).
Qed.

Lemma yields_try_catch {A} (Q : A -> Prop) (m : M W A) (h : string -> M W A) :
  yields Q m -> (forall e, yields Q (h e)) -> yields Q (try_catch m h).
Proof.
  intros Hm Hh st a st'. unfold try_catch.
  destruct (m st) as [[a' | e] st1] eqn:E.
  - intros [= <- _]. exact (Hm _ _ _ E).
  - apply Hh.
Qed.

Lemma yields_any {A} (m : M W A) : yields (fun _ => True) m.
Proof. intros st a st' _. exact I. Qed.

End Yields.

Section DealerProperties.
Context {W : Type} {outside : Collaborators W}.

Lemma scrapeListingDetails_yields url config known :
  yields (fun r => match r with Scraped l => unknown known l | Skipped _ => True end)
         (scrapeListingDetails (W:=W) url config known).
Proof.
  intros st [t | l] st' S; [exact I | ].
  apply scrapeListingDetails_Scraped in S.
  destruct S as (rawData & w & _ & New & E & _). unfold unknown. rewrite E. exact New.
Qed.

Lemma scrapeDealer_round_yields url config known listings bound :
  Forall (unknown known) listings -> length listings <= bound ->
  yields (fun ls => Forall (unknown known) ls /\ length ls <= S bound)
         (scrapeDealer_round (W:=W) url config known listings).
Proof.
  intros F L. unfold scrapeDealer_round.
  apply yields_try_catch.
  - eapply yields_bind; [apply scrapeListingDetails_yields | ].
    intros [t | l] Q.
    + eapply yields_bind; [apply yields_any | intros _ _].
      apply yields_ret. split; [exact F | lia].
    + apply yields_ret. split.
      * apply Forall_app. split; [exact F | constructor; [exact Q | constructor]].
      * rewrite length_app. simpl. lia.
  - intros e. eapply yields_bind; [apply yields_any | intros _ _].
    apply yields_ret. split; [exact F | lia].
Qed.

Lemma scrapeDealer_loop_yields urls config known listings bound :
  Forall (unknown known) listings -> length listings <= bound ->
  yields (fun ls => Forall (unknown known) ls /\ length ls <= bound + length urls)
         (scrapeDealer_loop (W:=W) urls config known listings).
Proof.
  revert listings bound. induction urls as [ | url rest IH]; intros listings bound F L; simpl.
  - apply yields_ret. split; [exact F | lia].
  - eapply yields_bind; [apply (scrapeDealer_round_yields _ _ _ _ bound F L) | ].
    intros ls (F' & L'). specialize (IH ls (S bound) F' L').
    intros st a st' R. specialize (IH st a st' R). simpl in IH.
    destruct IH as (Fa & La). split; [exact Fa | lia].
Qed.

(** A dealer yields at most [maxListingsPerDealer] listings, all of them
    unknown. *)
Lemma scrapeDealer_yields dealerUrl config known :
  yields (fun ls => Forall (unknown known) ls
                    /\ length ls <= Config.maxListingsPerDealer (Config.the_settings config))
         (scrapeDealer (W:=W) dealerUrl config known).
Proof.
  unfold scrapeDealer. cbv zeta. apply yields_try_catch.
  - eapply yields_bind; [apply yields_any | intros urls _].
    intros st a st' R.
    destruct (scrapeDealer_loop_yields _ _ _ [] 0 ltac:(constructor) (Nat.le_refl _)
                                       _ _ _ R) as (F & L).
    split; [exact F | ]. rewrite length_firstn in L. simpl in L. lia.
  - intros e. eapply yields_bind; [apply yields_any | intros _ _].
    apply yields_ret. split; [constructor | simpl; lia].
Qed.

(** The dealer loop hands on unknown listings only, and never more than
    [maxTotalListings]. *)
Lemma main_dealers_yields dealers config known allListings :
  Forall (unknown known) allListings ->
  length allListings <= Config.maxTotalListings (Config.the_settings config) ->
  yields (fun ls => Forall (unknown known) ls
                    /\ length ls <= Config.maxTotalListings (Config.the_settings config))
         (main_dealers (W:=W) dealers config known allListings).
Proof.
  revert allListings. induction dealers as [ | d rest IH]; intros allListings F L; simpl.
  - apply yields_ret. auto.
  - eapply yields_bind; [apply yields_any | intros _ _].
    eapply yields_bind; [apply scrapeDealer_yields | intros listings (F' & _)].
    eapply yields_bind; [apply yields_any | intros _ _].
    assert (Fall : Forall (unknown known) (allListings ++ listings))
      by (apply Forall_app; auto).
    destruct (_ <=? _)%nat eqn:Cap.
    + apply yields_ret. split.
      * apply Forall_take. exact Fall.
      * rewrite length_firstn. lia.
    + apply IH; [exact Fall | ]. apply Nat.leb_gt in Cap. lia.
Qed.

End DealerProperties.

Section Starts.
Context {W : Type}.

Lemma starts_await {A B} ev P (f : W -> outcome A * W) (k : A -> M W B) :
  (forall a, emits P (k a)) -> starts ev P (bind (await ev f) k).
Proof.
  intros Hk st. unfold bind, await.
  destruct (f (world st)) as [[a | e] w].
  - destruct (Hk a (State w (syncLog st) (trace st ++ ev))) as (tr & E & F).
    exists tr. rewrite E. simpl. rewrite <- app_assoc. auto.
  - exists []. simpl. rewrite app_nil_r. auto.
Qed.

Lemma starts_bind {A B} ev P (m : M W A) (k : A -> M W B) :
  starts ev P m -> (forall a, emits P (k a)) -> starts ev P (bind m k).
Proof.
  intros Hm Hk st. unfold bind.
  destruct (Hm st) as (tr1 & E1 & F1). destruct (m st) as [[a | e] st1]; simpl in E1.
  - destruct (Hk a st1) as (tr2 & E2 & F2). exists (tr1 ++ tr2)%list.
    rewrite E2, E1, <- !app_assoc. split; [reflexivity | apply Forall_app; auto].
  - exists tr1. auto.
Qed.

Lemma starts_try_catch {A} ev P (m : M W A) (h : string -> M W A) :
  starts ev P m -> (forall e, emits P (h e)) -> starts ev P (try_catch m h).
Proof.
  intros Hm Hh st. unfold try_catch.
  destruct (Hm st) as (tr1 & E1 & F1). destruct (m st) as [[a | e] st1]; simpl in E1.
  - exists tr1. auto.
  - destruct (Hh e st1) as (tr2 & E2 & F2). exists (tr1 ++ tr2)%list.
    rewrite E2, E1, <- !app_assoc. split; [reflexivity | apply Forall_app; auto].
Qed.

End Starts.

Lemma filter_detail_calls known (tr : list call) :
  Forall (detail_call known) tr -> List.filter is_ListingPage tr = [].
Proof.
  induction 1 as [ | c tr Hc _ IH]; [reflexivity | ].
  simpl. rewrite IH. destruct c; simpl in *; tauto.
Qed.

Lemma filter_scrape_calls known (tr : list call) :
  Forall (scrape_call known) tr -> List.filter is_InsertListing tr = [].
Proof.
  induction 1 as [ | c tr Hc _ IH]; [reflexivity | ].
  simpl. rewrite IH. destruct c; simpl in *; tauto.
Qed.

Lemma filter_inserts (ls : list Listing.t) :
  List.filter is_InsertListing (map InsertListing ls) = map InsertListing ls.
Proof. induction ls as [ | l ls IH]; simpl; [reflexivity | rewrite IH; reflexivity]. Qed.

Section TraceProperties.
Context {W : Type} {outside : Collaborators W}.

Lemma image_call_detail_call known c : image_call c -> detail_call known c.
Proof. destruct c; simpl; tauto. Qed.

(** One listing page is loaded per call of [scrapeListingDetails]. *)
Lemma scrapeListingDetails_starts url config known :
  starts [ListingPage url] (detail_call known)
         (scrapeListingDetails (W:=W) url config known).
Proof.
  unfold scrapeListingDetails. apply starts_await. intros rawData.
  destruct (parseMakeModel _) as [make model].
  apply emits_bind; [apply emits_perform; repeat constructor | intros [ | ]].
  - script.
  - destruct (parseColor _), (parseInterior _), (parsePower _).
    apply emits_bind; [script | intros random].
    apply emits_bind; [ | intros imageUrls; script].
    eapply emits_weaken; [apply image_call_detail_call | apply image_loop_emits].
Qed.

Lemma scrapeDealer_round_starts url config known listings :
  starts [ListingPage url] (detail_call known)
         (scrapeDealer_round (W:=W) url config known listings).
Proof.
  unfold scrapeDealer_round.
  apply starts_try_catch; [ | intros e; script].
  apply starts_bind; [apply scrapeListingDetails_starts | intros [t | l]; script].
Qed.

(** The listing loop loads each of its pages once, in order. *)
Lemma scrapeDealer_loop_pages urls config known listings (st : state W) :
  exists tr,
    trace (scrapeDealer_loop urls config known listings st).2 = (trace st ++ tr)%list
    /\ List.filter is_ListingPage tr = map ListingPage urls.
Proof.
  revert listings st. induction urls as [ | url rest IH]; intros listings st; simpl.
  - exists []. rewrite app_nil_r. auto.
  - unfold bind.
    destruct (scrapeDealer_round_starts url config known listings st) as (tr1 & E1 & F1).
    destruct (scrapeDealer_round_never_throws url config known listings st) as (ls & R).
    destruct (scrapeDealer_round url config known listings st) as [r st1].
    simpl in R, E1. subst r.
    destruct (IH ls st1) as (tr2 & E2 & F2).
    exists ([ListingPage url] ++ tr1 ++ tr2)%list. split.
    + rewrite E2, E1, <- !app_assoc. reflexivity.
    + simpl. rewrite List.filter_app, (filter_detail_calls _ _ F1), F2. reflexivity.
Qed.

(** A dealer has at most [maxListingsPerDealer] of its pages loaded. *)
Lemma scrapeDealer_pages dealerUrl config known (st : state W) :
  exists tr,
    trace (scrapeDealer dealerUrl config known st).2 = (trace st ++ tr)%list
    /\ length (List.filter is_ListingPage tr)
       <= Config.maxListingsPerDealer (Config.the_settings config).
Proof.
  unfold scrapeDealer, try_catch, bind, await. cbv zeta.
  destruct (search_page (searchUrl_of dealerUrl) (world st)) as [[urls | e] w].
  - match goal with
    | |- context [scrapeDealer_loop ?u ?c ?k ?l ?s] =>
        destruct (scrapeDealer_loop_pages u c k l s) as (tr & E & F);
        destruct (scrapeDealer_loop_never_throws u c k l s) as (ls & R);
        destruct (scrapeDealer_loop u c k l s) as [r st1]
    end.
    simpl in R, E. subst r. simpl.
    exists ([SearchPage (searchUrl_of dealerUrl)] ++ tr)%list. split.
    + rewrite E. simpl. rewrite <- app_assoc. reflexivity.
    + simpl. rewrite F, length_map, length_firstn. lia.
  - simpl. exists [SearchPage (searchUrl_of dealerUrl)]. split; [reflexivity | simpl; lia].
Qed.

End TraceProperties.

(** ** The run *)

Section MainProperties.
Context {W : Type} {outside : Collaborators W}.

Lemma getExistingFingerprints_run (st : state W) :
  getExistingFingerprints st
  = (Returned (loaded_set (select_fingerprints (world st)).1),
     State (select_fingerprints (world st)).2 (syncLog st)
           (trace st ++ [SelectFingerprints])).
Proof.
  unfold getExistingFingerprints, bind, perform.
  destruct (select_fingerprints (world st)) as [[rows | message] w]; reflexivity.
Qed.

(** The shape of a whole run: one query for the known fingerprints, then
    scraping, then the insertion of the listings handed on. *)
Lemma main_run config env (st : state W) :
  Config.enabled (Config.the_settings config) = true ->
  let known := loaded_set (select_fingerprints (world st)).1 in
  exists allListings st' tr,
    main config env st = (Returned allListings, st')
    /\ trace st'
       = (trace st ++ SelectFingerprints :: tr ++ map InsertListing allListings)%list
    /\ Forall (scrape_call known) tr
    /\ Forall (unknown known) allListings
    /\ length allListings
       <= Config.maxTotalListings (Config.the_settings (override config env)).
Proof.
  intros En known. unfold main. rewrite En.
  change (negb true) with false. cbv iota.
  unfold bind at 1. rewrite getExistingFingerprints_run. fold known.
  set (st1 := State (select_fingerprints (world st)).2 (syncLog st)
                    (trace st ++ [SelectFingerprints])).
  set (config' := override config env).
  destruct (main_dealers_never_throws (Config.dealers config') config' known [] st1)
    as (allListings & Ret).
  destruct (main_dealers_emits (Config.dealers config') config' known [] st1)
    as (tr & Tr & Ftr).
  pose proof (main_dealers_yields (Config.dealers config') config' known []
                ltac:(constructor) ltac:(simpl; lia) st1) as Y.
  unfold bind.
  destruct (main_dealers (Config.dealers config') config' known [] st1) as [r1 st2].
  simpl in Ret, Tr. subst r1.
  destruct (Y allListings st2 eq_refl) as (Fun & Len).
  destruct (main_insert_trace allListings st2) as (st3 & Ins & Tr3).
  rewrite Ins. unfold perform, log_update, ret.
  destruct (date_now (world st3)) as [now w4]. simpl.
  eexists allListings, _, tr. split; [reflexivity | ]. simpl.
  split; [ | auto].
  rewrite app_nil_r, Tr3, Tr. subst st1. simpl. rewrite <- !app_assoc. reflexivity.
Qed.

(** A candidate whose fingerprint is not in the set is pushed. *)
Lemma scrapeDealer_round_new url config known listings (st : state W) rawData w :
  listing_page url (world st) = (Returned rawData, w) ->
  fingerprint_of rawData ∉ known ->
  exists listing st',
    scrapeDealer_round url config known listings st
    = (Returned (listings ++ [listing])%list, st')
    /\ Listing.fingerprint listing = fingerprint_of rawData.
Proof.
  intros Page New.
  destruct (scrapeListingDetails_new url config known st rawData w Page New)
    as (listing & st' & S).
  exists listing, st'. split.
  - unfold scrapeDealer_round, try_catch, bind. rewrite S. reflexivity.
  - apply scrapeListingDetails_Scraped in S.
    destruct S as (rawData' & w' & Page' & _ & E & _).
    rewrite Page in Page'. injection Page' as <- _. exact E.
Qed.

End MainProperties.

(** C3. A candidate whose fingerprint is in the known set is skipped at
    once: [scrapeListingDetails] returns the [skipped] marker right after
    the membership test, so nothing but the page load and the test happens
    (no call of the image pipeline, of the storage or of the database, no
    random slug, no assembled listing), the array of listings is left as it
    was, [listingsSkipped] goes up by exactly one and no other counter
    moves.  Over a whole run, every listing inserted has a fingerprint
    outside the known set. *)
Theorem known_fingerprint_short_circuits
        {W : Type} {outside : Collaborators W} url config known listings (st : state W) rawData w :
  listing_page url (world st) = (Returned rawData, w) ->
  fingerprint_of rawData ∈ known ->
  let calls := [ListingPage url; HasFingerprint (fingerprint_of rawData) known] in
  let st' := State w (SyncLog.incr_skipped (syncLog st)) (trace st ++ calls) in
  scrapeListingDetails url config known st
  = (Returned (Skipped (Raw.title rawData)), State w (syncLog st) (trace st ++ calls))
  /\ scrapeDealer_round url config known listings st = (Returned listings, st')
  /\ List.filter is_ProcessImage calls = []
  /\ Forall (fun c => ~ image_call c) calls
  /\ List.filter is_InsertListing calls = []
  /\ SyncLog.listingsSkipped (syncLog st') = SyncLog.listingsSkipped (syncLog st) + 1
  /\ SyncLog.imagesUploaded (syncLog st') = SyncLog.imagesUploaded (syncLog st)
  /\ SyncLog.listingsFound (syncLog st') = SyncLog.listingsFound (syncLog st)
  /\ SyncLog.listingsNew (syncLog st') = SyncLog.listingsNew (syncLog st)
  /\ SyncLog.errors (syncLog st') = SyncLog.errors (syncLog st)
  /\ (forall config0 env (st0 : state W),
        Config.enabled (Config.the_settings config0) = true ->
        forall l, In (InsertListing l) (trace (main config0 env st0).2) ->
                  In (InsertListing l) (trace st0)
                  \/ Listing.fingerprint l
                     ∉ loaded_set (select_fingerprints (world st0)).1).
Proof.
  intros Page Known calls st'.
  pose proof (scrapeListingDetails_known url config known st rawData w Page Known) as S.
  split; [exact S | ].
  split.
  { unfold scrapeDealer_round, try_catch, bind. rewrite S. reflexivity. }
  split; [reflexivity | ].
  split; [repeat constructor; simpl; tauto | ].
  split; [reflexivity | ].
  do 5 (split; [reflexivity | ]).
  intros config0 env st0 En l I.
  destruct (main_run config0 env st0 En) as (allListings & st1 & tr & Run & Tr & Ftr & Fun & _).
  rewrite Run in I. simpl in I. rewrite Tr in I.
  apply in_app_or in I. destruct I as [I | I]; [left; exact I | right].
  destruct I as [I | I]; [discriminate I | ].
  apply in_app_or in I. destruct I as [I | I].
  - rewrite Forall_forall in Ftr. apply list_elem_of_In, Ftr in I. destruct I.
  - apply in_map_iff in I. destruct I as (l' & [= ->] & I).
    rewrite Forall_forall in Fun. apply list_elem_of_In, Fun in I. exact I.
Qed.

Lemma known_fingerprint_short_circuits_witness :
  let known : gset string := loaded_set (Demo.rows Demo.rerun) in
  @listing_page unit (Demo.collaborators Demo.rerun) Demo.id1 (world Demo.start)
  = (Returned Demo.bmw_a, tt)
  /\ fingerprint_of Demo.bmw_a ∈ known
  /\ scrapeDealer_round (outside:=Demo.collaborators Demo.rerun) Demo.id1
                        (Demo.config 100 200 []) known [] Demo.start
     = (Returned [],
        State tt (SyncLog.incr_skipped (syncLog Demo.start))
              [ListingPage Demo.id1; HasFingerprint (fingerprint_of Demo.bmw_a) known]).
Proof.
  intros known.
  assert (Page : @listing_page unit (Demo.collaborators Demo.rerun) Demo.id1 (world Demo.start)
                 = (Returned Demo.bmw_a, tt)) by reflexivity.
  assert (Known : fingerprint_of Demo.bmw_a ∈ known)
    by (apply (bool_decide_unpack (fingerprint_of Demo.bmw_a ∈ known)); vm_compute; exact I).
  split; [exact Page | split; [exact Known | ]].
  exact (proj1 (proj2 (known_fingerprint_short_circuits (outside:=Demo.collaborators Demo.rerun)
                         Demo.id1 (Demo.config 100 200 []) known [] Demo.start
                         Demo.bmw_a tt Page Known))).
Defined.

(** C5. The set of known fingerprints is queried once, at the start of the
    run, and every membership test of the run is made on the set as it was
    loaded: nothing is added to it while the run goes on.  So two
    candidates of one run that share a fingerprint outside the set are both
    assembled and pushed, the second as if the first had not been seen. *)
Theorem known_set_is_a_snapshot
        {W : Type} {outside : Collaborators W} config env (st : state W) :
  Config.enabled (Config.the_settings config) = true ->
  let known := loaded_set (select_fingerprints (world st)).1 in
  (exists allListings st' tr,
      main config env st = (Returned allListings, st')
      /\ trace st' = (trace st ++ SelectFingerprints :: tr)%list
      /\ ~ In SelectFingerprints tr
      /\ forall fingerprint s, In (HasFingerprint fingerprint s) tr -> s = known)
  /\ (forall url1 url2 config0 known0 listings (st0 : state W) rawData1 w1,
        listing_page url1 (world st0) = (Returned rawData1, w1) ->
        fingerprint_of rawData1 ∉ known0 ->
        exists l1 st1,
          scrapeDealer_round url1 config0 known0 listings st0
          = (Returned (listings ++ [l1])%list, st1)
          /\ Listing.fingerprint l1 = fingerprint_of rawData1
          /\ forall rawData2 w2,
               listing_page url2 (world st1) = (Returned rawData2, w2) ->
               fingerprint_of rawData2 = fingerprint_of rawData1 ->
               exists l2 st2,
                 scrapeDealer_round url2 config0 known0 (listings ++ [l1])%list st1
                 = (Returned ((listings ++ [l1]) ++ [l2])%list, st2)
                 /\ Listing.fingerprint l2 = Listing.fingerprint l1).
Proof.
  intros En known. split.
  - destruct (main_run config env st En)
      as (allListings & st' & tr & Run & Tr & Ftr & _ & _).
    exists allListings, st', (tr ++ map InsertListing allListings)%list.
    split; [exact Run | split; [exact Tr | ]].
    rewrite Forall_forall in Ftr. split.
    + intros I. apply in_app_or in I. destruct I as [I | I].
      * apply list_elem_of_In, Ftr in I. exact I.
      * apply in_map_iff in I. destruct I as (l & E & _). discriminate E.
    + intros fingerprint s I. apply in_app_or in I. destruct I as [I | I].
      * apply list_elem_of_In, Ftr in I. exact I.
      * apply in_map_iff in I. destruct I as (l & E & _). discriminate E.
  - intros url1 url2 config0 known0 listings st0 rawData1 w1 Page1 New1.
    destruct (scrapeDealer_round_new url1 config0 known0 listings st0 rawData1 w1 Page1 New1)
      as (l1 & st1 & R1 & F1).
    exists l1, st1. split; [exact R1 | split; [exact F1 | ]].
    intros rawData2 w2 Page2 Same.
    assert (New2 : fingerprint_of rawData2 ∉ known0) by (rewrite Same; exact New1).
    destruct (scrapeDealer_round_new url2 config0 known0 (listings ++ [l1])%list st1
                                     rawData2 w2 Page2 New2)
      as (l2 & st2 & R2 & F2).
    exists l2, st2. split; [exact R2 | congruence].
Qed.

Lemma known_set_is_a_snapshot_witness :
  let config := Demo.config 100 200 [Config.Dealer "Autohaus" "https://home.mobile.de/home/index.html?customerId=42"] in
  Config.enabled (Config.the_settings config) = true
  /\ exists allListings st',
       main (outside:=Demo.collaborators Demo.fresh) config None Demo.start
       = (Returned allListings, st')
       /\ map Listing.fingerprint allListings
          = [fingerprint_of Demo.bmw_a; fingerprint_of Demo.bmw_a; fingerprint_of Demo.audi].
Proof.
  intros config.
  assert (En : Config.enabled (Config.the_settings config) = true) by reflexivity.
  split; [exact En | ].
  destruct (proj1 (known_set_is_a_snapshot (outside:=Demo.collaborators Demo.fresh)
                     config None Demo.start En))
    as (allListings & st' & tr & Run & _).
  exists allListings, st'. split; [exact Run | ].
  pose proof Run as C. vm_compute in C. injection C as E _. rewrite <- E.
  vm_compute. reflexivity.
Defined.

(** C8. Two caps bound a run.  Of one dealer at most
    [maxListingsPerDealer] listing pages are loaded, and it yields at most
    that many listings.  After each dealer the total is compared with
    [maxTotalListings] (after the override of the environment): once it is
    reached the loop over the dealers ends there, no later dealer is
    visited, and the listings gathered so far, those of the last dealer
    included, are kept up to the cap; the listings handed to the insertion
    loop, which are exactly the ones inserted, are never more than the
    cap. *)
Theorem caps_are_enforced
        {W : Type} {outside : Collaborators W} config env (st : state W) :
  Config.enabled (Config.the_settings config) = true ->
  let config' := override config env in
  let perDealer := Config.maxListingsPerDealer (Config.the_settings config') in
  let total := Config.maxTotalListings (Config.the_settings config') in
  (exists allListings st' tr,
      main config env st = (Returned allListings, st')
      /\ trace st' = (trace st ++ tr)%list
      /\ List.filter is_InsertListing tr = map InsertListing allListings
      /\ length allListings <= total)
  /\ (forall dealerUrl known (st0 : state W),
        exists listings st1 tr,
          scrapeDealer dealerUrl config' known st0 = (Returned listings, st1)
          /\ trace st1 = (trace st0 ++ tr)%list
          /\ length (List.filter is_ListingPage tr) <= perDealer
          /\ length listings <= perDealer)
  /\ (forall dealer rest known allListings (st0 st1 : state W) listings,
        scrapeDealer (Config.url dealer) config' known
                     (State (world st0) (SyncLog.push_dealer dealer (syncLog st0)) (trace st0))
        = (Returned listings, st1) ->
        let st2 := State (world st1) (SyncLog.add_found (length listings) (syncLog st1))
                         (trace st1) in
        (total <= length (allListings ++ listings)%list ->
         main_dealers (dealer :: rest) config' known allListings st0
         = (Returned (firstn total (allListings ++ listings)%list), st2)
         /\ (length allListings <= total ->
             firstn total (allListings ++ listings)%list
             = (allListings ++ firstn (total - length allListings) listings)%list))
        /\ (length (allListings ++ listings)%list < total ->
            main_dealers (dealer :: rest) config' known allListings st0
            = main_dealers rest config' known (allListings ++ listings)%list st2)).
Proof.
  intros En config' perDealer total. split; [ | split].
  - destruct (main_run config env st En)
      as (allListings & st' & tr & Run & Tr & Ftr & _ & Len).
    exists allListings, st', (SelectFingerprints :: tr ++ map InsertListing allListings)%list.
    split; [exact Run | split; [exact Tr | split; [ | exact Len]]].
    simpl. rewrite List.filter_app, (filter_scrape_calls _ _ Ftr), filter_inserts.
    reflexivity.
  - intros dealerUrl known st0.
    destruct (scrapeDealer_never_throws dealerUrl config' known st0) as (listings & Ret).
    destruct (scrapeDealer_pages dealerUrl config' known st0) as (tr & Tr & Pages).
    pose proof (scrapeDealer_yields dealerUrl config' known st0) as Y.
    destruct (scrapeDealer dealerUrl config' known st0) as [r st1].
    simpl in Ret, Tr. subst r.
    exists listings, st1, tr. split; [reflexivity | split; [exact Tr | split; [exact Pages | ]]].
    exact (proj2 (Y listings st1 eq_refl)).
  - intros dealer rest known allListings st0 st1 listings Scrape st2. split.
    + intros Cap. split.
      * simpl. unfold bind, log_update. rewrite Scrape.
        fold total. rewrite (proj2 (Nat.leb_le _ _) Cap). reflexivity.
      * intros Len. rewrite List.firstn_app, (List.firstn_all2 _ Len). reflexivity.
    + intros Below. simpl. unfold bind, log_update. rewrite Scrape.
      fold total. rewrite (proj2 (Nat.leb_gt _ _) Below). reflexivity.
Qed.

Lemma caps_are_enforced_witness :
  let dealers := [Config.Dealer "Autohaus Nord" "https://home.mobile.de/home/index.html?customerId=42";
                  Config.Dealer "Autohaus Ost" "https://home.mobile.de/home/index.html?customerId=43";
                  Config.Dealer "Autohaus West" "https://home.mobile.de/home/index.html?customerId=44"] in
  let config := Demo.config 2 3 dealers in
  Config.enabled (Config.the_settings config) = true
  /\ exists allListings st',
       main (outside:=Demo.collaborators Demo.fresh) config None Demo.start
       = (Returned allListings, st')
       /\ length allListings = 3
       /\ map Config.name (SyncLog.dealers (syncLog st')) = ["Autohaus Nord"; "Autohaus Ost"]
       /\ SyncLog.listingsFound (syncLog st') = 4.
Proof.
  intros dealers config.
  assert (En : Config.enabled (Config.the_settings config) = true) by reflexivity.
  split; [exact En | ].
  destruct (proj1 (caps_are_enforced (outside:=Demo.collaborators Demo.fresh)
                     config None Demo.start En))
    as (allListings & st' & tr & Run & _).
  exists allListings, st'. split; [exact Run | ].
  pose proof Run as C. vm_compute in C. injection C as E1 E2. rewrite <- E1, <- E2.
  vm_compute. repeat split; reflexivity.
Defined.

(** ** Images of one listing *)

Lemma filter_upload_calls (tr : list call) :
  Forall upload_call tr -> List.filter is_ProcessImage tr = [].
Proof.
  induction 1 as [ | c tr Hc _ IH]; [reflexivity | ].
  simpl. rewrite IH. destruct c; simpl in *; tauto.
Qed.

Section ImageProperties.
Context {W : Type} {outside : Collaborators W}.

Lemma processAndUploadImage_starts imageUrl slug i config :
  starts [ProcessImage imageUrl slug i] upload_call
         (processAndUploadImage (W:=W) imageUrl slug i config).
Proof.
  unfold processAndUploadImage. cbv zeta. apply starts_await. intros webpBuffer.
  unfold uploadImage. script; exact I.
Qed.

(** The images attempted are [images[i]], ..., [images[i + todo - 1]], each
    once and in this order. *)
Lemma image_loop_attempts images slug config todo i imageUrls (st : state W) :
  exists tr,
    trace (image_loop images slug config todo i imageUrls st).2 = (trace st ++ tr)%list
    /\ List.filter is_ProcessImage tr
       = map (fun j => ProcessImage (nth j images EmptyString) slug j) (seq i todo).
Proof.
  revert i imageUrls st. induction todo as [ | todo IH]; intros i imageUrls st; simpl.
  - exists []. rewrite app_nil_r. auto.
  - unfold bind at 1.
    match goal with
    | |- context [try_catch ?m ?h st] => set (round := try_catch m h)
    end.
    assert (S1 : starts [ProcessImage (nth i images EmptyString) slug i]
                        upload_call round).
    { apply starts_try_catch; [ | intros e; script].
      apply starts_bind; [apply processAndUploadImage_starts | intros a; script]. }
    assert (N : never_throws round)
      by (apply never_throws_try_catch; intros; script).
    destruct (S1 st) as (tr1 & E1 & F1). destruct (N st) as (urls & R).
    destruct (round st) as [r st1]. simpl in E1, R. subst r.
    destruct (IH (S i) urls st1) as (tr2 & E2 & F2).
    exists ([ProcessImage (nth i images EmptyString) slug i] ++ tr1 ++ tr2)%list. split.
    + rewrite E2, E1, <- !app_assoc. reflexivity.
    + simpl. rewrite List.filter_app, (filter_upload_calls _ F1), F2. reflexivity.
Qed.

(** The URLs pushed by the loop are uploaded images of the listing, in
    the order of their indices, and [imagesUploaded] counts them. *)
Lemma image_loop_result images slug config todo i imageUrls (st : state W) :
  exists new st',
    image_loop images slug config todo i imageUrls st
    = (Returned (imageUrls ++ new)%list, st')
    /\ sublist new (map (fun j => public_url (image_file slug j)) (seq i todo))
    /\ SyncLog.imagesUploaded (syncLog st')
       = SyncLog.imagesUploaded (syncLog st) + length new
    /\ SyncLog.errors (syncLog st') = SyncLog.errors (syncLog st).
Proof.
  revert i imageUrls st. induction todo as [ | todo IH]; intros i imageUrls st.
  - exists [], st. simpl. rewrite app_nil_r. unfold ret.
    repeat split; [constructor | lia].
  - cbn [image_loop seq map].
    unfold bind at 1. unfold try_catch, processAndUploadImage, uploadImage.
    unfold bind, await, log_update, ret. cbv zeta.
    fold (image_file slug i).
    destruct (screenshot_webp _ _ _ _) as [[webpBuffer | e] w1]; simpl.
    + destruct (storage_upload _ _ _) as [[[[] | message] | e] w2]; simpl.
      * destruct (JsString.truthy (public_url (image_file slug i))) eqn:T; simpl.
        -- match goal with
           | |- context [image_loop _ _ _ _ _ ?u ?s] =>
               destruct (IH (S i) u s) as (new & st' & Run & Sub & Count & Err)
           end.
           exists (public_url (image_file slug i) :: new), st'.
           rewrite Run, <- app_assoc. simpl in *.
           repeat split; [apply sublist_skip; exact Sub | lia | exact Err].
        -- match goal with
           | |- context [image_loop _ _ _ _ _ ?u ?s] =>
               destruct (IH (S i) u s) as (new & st' & Run & Sub & Count & Err)
           end.
           exists new, st'. rewrite Run. simpl in *.
           repeat split; [apply sublist_cons; exact Sub | lia | exact Err].
      * match goal with
        | |- context [image_loop _ _ _ _ _ ?u ?s] =>
            destruct (IH (S i) u s) as (new & st' & Run & Sub & Count & Err)
        end.
        exists new, st'. rewrite Run. simpl in *.
        repeat split; [apply sublist_cons; exact Sub | lia | exact Err].
      * match goal with
        | |- context [image_loop _ _ _ _ _ ?u ?s] =>
            destruct (IH (S i) u s) as (new & st' & Run & Sub & Count & Err)
        end.
        exists new, st'. rewrite Run. simpl in *.
        repeat split; [apply sublist_cons; exact Sub | lia | exact Err].
    + match goal with
      | |- context [image_loop _ _ _ _ _ ?u ?s] =>
          destruct (IH (S i) u s) as (new & st' & Run & Sub & Count & Err)
      end.
      exists new, st'. rewrite Run. simpl in *.
      repeat split; [apply sublist_cons; exact Sub | lia | exact Err].
Qed.

(** The images of an assembled listing: the first ten photos of the page
    at most are attempted, in order; the listing holds uploaded images
    only, in the order of the photos; [imagesUploaded] counts them; and
    no entry is added to [syncLog.errors], whatever failed. *)
Lemma scrapeListingDetails_images url config known (st st' : state W) listing :
  scrapeListingDetails url config known st = (Returned (Scraped listing), st') ->
  exists rawData w tr,
    let maxImages := Nat.min (length (Raw.images rawData)) 10 in
    listing_page url (world st) = (Returned rawData, w)
    /\ trace st' = (trace st ++ tr)%list
    /\ List.filter is_ProcessImage tr
       = map (fun j => ProcessImage (nth j (Raw.images rawData) EmptyString)
                                    (Listing.slug listing) j)
             (seq 0 maxImages)
    /\ sublist (Listing.images listing)
               (map (fun j => public_url (image_file (Listing.slug listing) j))
                    (seq 0 maxImages))
    /\ SyncLog.imagesUploaded (syncLog st')
       = SyncLog.imagesUploaded (syncLog st) + length (Listing.images listing)
    /\ SyncLog.errors (syncLog st') = SyncLog.errors (syncLog st).
Proof.
  unfold scrapeListingDetails, bind, await, perform. simpl.
  destruct (listing_page url (world st)) as [[rawData | e] w]; [ | discriminate].
  destruct (parseMakeModel (Raw.title rawData)) as [make model]. simpl.
  destruct (bool_decide _); [discriminate | ].
  destruct (parseColor _) as [color metallic].
  destruct (parseInterior _) as [interiorMaterial interiorColor].
  destruct (parsePower _) as [powerKw powerPs].
  simpl. destruct (random_hex w) as [random w1]. simpl.
  match goal with
  | |- context [image_loop ?a ?b ?c ?d ?e ?f ?s] =>
      destruct (image_loop_attempts a b c d e f s) as (tr & Tr & Att);
      destruct (image_loop_result a b c d e f s) as (new & st2 & Run & Sub & Cnt & Err);
      rewrite Run in *
  end.
  cbn [fst snd trace syncLog world] in *. destruct (date_now (world st2)) as [now w3].
  intros [= <- <-]. eexists rawData, w, _. cbv zeta.
  cbn [trace syncLog Listing.slug Listing.images].
  split; [reflexivity | ].
  split; [rewrite app_nil_r, Tr, <- !app_assoc; reflexivity | ].
  split; [cbn [app List.filter is_ProcessImage]; exact Att | ].
  split; [exact Sub | ].
  split; [rewrite Cnt; reflexivity | exact Err].
Qed.

End ImageProperties.

(** C4. A page with fifteen photos, the fourth of which fails to load: ten
    photos are attempted, the first ten in order; the failure is caught, the
    nine others are uploaded and the listing holds them in the order of the
    photos; but [syncLog.errors] gets no entry for the failed photo: the
    handler of the image loop writes to the console only. *)
Theorem image_failure_leaves_no_error_entry :
  let slug := "audi-a4-avant-2022-a1b2c3d4" in
  exists (listing : Listing.t) (st' : state unit),
    scrapeListingDetails (outside:=Demo.collaborators Demo.flaky) Demo.id3
                         (Demo.config 100 200 []) ∅ Demo.start
    = (Returned (Scraped listing), st')
    /\ length (Raw.images Demo.gallery) = 15
    /\ List.filter is_ProcessImage (trace st')
       = map (fun i => ProcessImage (Demo.photo (S i)) slug i) (seq 0 10)
    /\ Listing.images listing
       = map (fun i => @public_url unit (Demo.collaborators Demo.flaky) (image_file slug i))
             [0; 1; 2; 4; 5; 6; 7; 8; 9]
    /\ SyncLog.imagesUploaded (syncLog st') = 9
    /\ SyncLog.errors (syncLog st') = [].
Proof.
  intros slug.
  destruct (scrapeListingDetails (outside:=Demo.collaborators Demo.flaky) Demo.id3
                                 (Demo.config 100 200 []) ∅ Demo.start)
    as [[[t | listing] | e] st'] eqn:S;
    try (vm_compute in S; discriminate S).
  exists listing, st'. split; [reflexivity | ].
  vm_compute in S. injection S as E1 E2. rewrite <- E1, <- E2.
  vm_compute. repeat split; reflexivity.
Qed.


(** * Further properties of the helpers *)

(** ** The format of a fingerprint *)



Lemma string_app_assoc (a b c : string) : (a ++ b) ++ c = a ++ b ++ c.
Proof.
  induction a as [ | x a IH]; [reflexivity | ].
  rewrite !append_cons, IH. reflexivity.
Qed.

Lemma le_bytes_range (n : nat) (x : Z) :
  Forall (fun b => 0 <= b < 256)%Z (Md5.le_bytes n x).
Proof.
  unfold Md5.le_bytes. induction (seq 0 n) as [ | i l IH]; simpl; constructor; [ | exact IH].
  change 255%Z with (Z.ones 8). rewrite Z.land_ones by lia.
  apply Z.mod_pos_bound. reflexivity.
Qed.

Lemma le_bytes_length (n : nat) (x : Z) : length (Md5.le_bytes n x) = n.
Proof. unfold Md5.le_bytes. rewrite length_map, length_seq. reflexivity. Qed.

Lemma hex_digit_hex (n : Z) : (0 <= n < 16)%Z -> is_hex_char (Md5.hex_digit n) = true.
Proof.
  intros R. rewrite <- (Z2Nat.id n) by lia.
  assert (K : Z.to_nat n < 16) by lia.
  revert K. generalize (Z.to_nat n). intros k K.
  do 16 (destruct k as [ | k]; [reflexivity | ]). lia.
Qed.

Lemma hex_length (bs : list Z) : String.length (Md5.hex bs) = 2 * length bs.
Proof. induction bs as [ | b bs IH]; simpl; [reflexivity | rewrite IH; lia]. Qed.

Lemma hex_chars (bs : list Z) :
  Forall (fun b => 0 <= b < 256)%Z bs -> string_forall is_hex_char (Md5.hex bs) = true.
Proof.
  induction 1 as [ | b bs R _ IH]; [reflexivity | ].
  cbn [Md5.hex string_forall]. rewrite IH, !andb_true_r.
  apply andb_true_intro. split; apply hex_digit_hex.
  - rewrite Z.shiftr_div_pow2 by lia. change (2 ^ 4)%Z with 16%Z.
    split; [apply Z.div_pos; lia | apply Z.div_lt_upper_bound; lia].
  - change 15%Z with (Z.ones 4). rewrite Z.land_ones by lia.
    apply Z.mod_pos_bound. reflexivity.
Qed.

Lemma or_empty_VStr (s : string) : or_empty (VStr s) = s.
Proof. destruct s; reflexivity. Qed.

(** X1. Whatever its four arguments are, [generateFingerprint] returns 32
    characters, each a lower-case hexadecimal digit. *)
Theorem generateFingerprint_format (make model mileage firstRegistration : value) :
  String.length (generateFingerprint make model mileage firstRegistration) = 32
  /\ string_forall is_hex_char
       (generateFingerprint make model mileage firstRegistration) = true.
Proof.
  unfold generateFingerprint, Md5.md5_hex, Md5.digest. cbv zeta. split.
  - rewrite hex_length, !length_app, !le_bytes_length. reflexivity.
  - apply hex_chars. repeat (apply Forall_app; split); apply le_bytes_range.
Qed.

(** X2. The fields are joined by bars without escaping, so a bar inside a
    field moves the border between fields unnoticed: make [a|b] with model
    [c] has the fingerprint of make [a] with model [b|c]. *)
Theorem generateFingerprint_bar_ambiguity (a b c : string) (mileage firstRegistration : value) :
  generateFingerprint (VStr (a ++ "|" ++ b)) (VStr c) mileage firstRegistration
  = generateFingerprint (VStr a) (VStr (b ++ "|" ++ c)) mileage firstRegistration.
Proof.
  rewrite !generateFingerprint_unfold, !or_empty_VStr.
  f_equal. rewrite !string_app_assoc. reflexivity.
Qed.

(** ** The numeric parser *)








(** ** The registration parser, applied twice *)

Lemma digit_not_slash (c : ascii) : JsString.is_digit c = true -> Ascii.eqb c "/" = false.
Proof. destruct c as [[] [] [] [] [] [] [] []]; intros D; try discriminate D; reflexivity. Qed.

Lemma search_registration_digits (d : string) :
  is_digits d = true -> search_registration d = None.
Proof.
  induction d as [ | c t IH]; [reflexivity | ].
  intros E. pose proof E as E'. simpl in E'. apply andb_prop in E'. destruct E' as [_ Et].
  unfold search_registration; fold search_registration.
  assert (M : match_registration (String c t) = None).
  { destruct t as [ | m2 [ | sep [ | y1 [ | y2 [ | y3 [ | y4 post]]]]]]; try reflexivity.
    simpl in E.
    repeat match goal with
           | H : _ && _ = true |- _ => apply andb_prop in H; destruct H
           end.
    unfold match_registration. rewrite (digit_not_slash sep) by assumption. reflexivity. }
  rewrite M. apply IH. exact Et.
Qed.

Lemma is_digits_app (a b : string) :
  is_digits a = true -> is_digits b = true -> is_digits (a ++ b) = true.
Proof.
  induction a as [ | c a IH]; intros A B; [exact B | ].
  cbn [is_digits] in A. apply andb_prop in A. destruct A as [D A].
  change (String c a ++ b) with (String c (a ++ b)).
  cbn [is_digits]. rewrite D, (IH A B). reflexivity.
Qed.

(** X4. [parseRegistration] applied to its own result changes nothing: a
    reformatted registration, being six digits, passes through, and so does
    a text that passed through before. *)
Theorem parseRegistration_idempotent (regString : option string) :
  parseRegistration (parseRegistration regString) = parseRegistration regString.
Proof.
  destruct regString as [s | ]; [ | reflexivity].
  destruct s as [ | c t]; [reflexivity | ].
  pose proof (search_registration_spec (String c t)) as Spec.
  destruct (search_registration (String c t)) as [[month year] | ] eqn:Search.
  - assert (R : parseRegistration (Some (String c t)) = Some (year ++ month))
      by (unfold parseRegistration; cbn [JsString.truthy negb]; rewrite Search; reflexivity).
    rewrite R. destruct Spec as (pre & post & (_ & Lm & Ly & Dm & Dy) & _).
    unfold parseRegistration.
    destruct year as [ | y1 year']; [discriminate Ly | ].
    change (String y1 year' ++ month) with (String y1 (year' ++ month)).
    cbn [JsString.truthy negb].
    change (String y1 (year' ++ month)) with (String y1 year' ++ month).
    rewrite search_registration_digits by (apply is_digits_app; assumption).
    reflexivity.
  - assert (R : parseRegistration (Some (String c t)) = Some (String c t))
      by (unfold parseRegistration; cbn [JsString.truthy negb]; rewrite Search; reflexivity).
    rewrite R. exact R.
Qed.

(** ** The shape of a slug *)

Lemma strip_leading_hyphen_eq (s : string) :
  strip_leading_hyphen s
  = match s with
    | String c t => if Ascii.eqb c "-" then t else s
    | EmptyString => EmptyString
    end.
Proof.
  destruct s as [ | c t]; [reflexivity | ].
  destruct c as [[] [] [] [] [] [] [] []]; reflexivity.
Qed.

Lemma strip_trailing_hyphen_eq (c : ascii) (t : string) :
  strip_trailing_hyphen (String c t)
  = if Ascii.eqb c "-" && negb (JsString.truthy t) then EmptyString
    else String c (strip_trailing_hyphen t).
Proof.
  destruct c as [[] [] [] [] [] [] [] []]; destruct t; reflexivity.
Qed.

Lemma slug_char_not_hyphen (c : ascii) : is_slug_char c = true -> Ascii.eqb c "-" = false.
Proof. destruct c as [[] [] [] [] [] [] [] []]; intros D; try discriminate D; reflexivity. Qed.

Lemma hyphenate_shape (in_run : bool) (s : string) :
  string_forall is_slug_or_hyphen (hyphenate in_run s) = true
  /\ hyphens_single (hyphenate in_run s) = true
  /\ (in_run = true -> starts_with_hyphen (hyphenate in_run s) = false).
Proof.
  revert in_run. induction s as [ | c t IH]; intros in_run; [simpl; auto | ].
  cbn [hyphenate]. destruct (is_slug_char c) eqn:Slug.
  - destruct (IH false) as (F & S & _).
    cbn [string_forall hyphens_single starts_with_hyphen].
    unfold is_slug_or_hyphen at 1. rewrite Slug, F, S, (slug_char_not_hyphen c Slug).
    auto.
  - destruct (IH true) as (F & S & N). specialize (N eq_refl). destruct in_run.
    + auto.
    + cbn [string_forall hyphens_single starts_with_hyphen].
      unfold is_slug_or_hyphen at 1. rewrite F, S, N.
      split; [reflexivity | split; [reflexivity | discriminate]].
Qed.

Lemma strip_trailing_hyphen_empty (s : string) :
  strip_trailing_hyphen s = "" -> s = "" \/ s = "-".
Proof.
  destruct s as [ | c t]; [auto | ].
  rewrite strip_trailing_hyphen_eq.
  destruct (Ascii.eqb c "-") eqn:E; destruct t; simpl; try discriminate.
  intros _. apply Ascii.eqb_eq in E. subst c. auto.
Qed.

Lemma strip_trailing_hyphen_shape (s : string) :
  string_forall is_slug_or_hyphen s = true ->
  hyphens_single s = true ->
  string_forall is_slug_or_hyphen (strip_trailing_hyphen s) = true
  /\ hyphens_single (strip_trailing_hyphen s) = true
  /\ (starts_with_hyphen s = false -> starts_with_hyphen (strip_trailing_hyphen s) = false)
  /\ ends_with_hyphen (strip_trailing_hyphen s) = false.
Proof.
  induction s as [ | c t IH]; [simpl; auto | ].
  cbn [string_forall hyphens_single]. intros F S.
  apply andb_prop in F. destruct F as [Fc Ft].
  apply andb_prop in S. destruct S as [Sc St].
  destruct (IH Ft St) as (F' & S' & N' & E').
  rewrite strip_trailing_hyphen_eq.
  destruct (Ascii.eqb c "-" && negb (JsString.truthy t)) eqn:Last; [simpl; auto | ].
  cbn [string_forall hyphens_single starts_with_hyphen ends_with_hyphen].
  rewrite Fc, F', S'. simpl.
  assert (Sc' : negb (Ascii.eqb c "-" && starts_with_hyphen (strip_trailing_hyphen t)) = true).
  { destruct (Ascii.eqb c "-") eqn:E; [ | reflexivity]. simpl in *.
    apply negb_true_iff in Sc. rewrite (N' Sc). reflexivity. }
  rewrite Sc'. split; [reflexivity | split; [reflexivity | split; [auto | ]]].
  destruct (strip_trailing_hyphen t) as [ | c' t'] eqn:T; [ | exact E'].
  destruct (strip_trailing_hyphen_empty t T) as [-> | ->].
  - simpl in Last. rewrite andb_true_r in Last. exact Last.
  - destruct (Ascii.eqb c "-"); [discriminate Sc | reflexivity].
Qed.

(** X5. A slug is a base, a hyphen and the random suffix.  Whatever the
    make, model and year are, the base holds only lower-case letters,
    digits and hyphens, no two hyphens in a row, and neither begins nor
    ends with a hyphen. *)
Theorem generateSlug_shape (make model year : value) (random : string) :
  exists base,
    generateSlug make model year random = base ++ "-" ++ random
    /\ string_forall is_slug_or_hyphen base = true
    /\ hyphens_single base = true
    /\ starts_with_hyphen base = false
    /\ ends_with_hyphen base = false.
Proof.
  unfold generateSlug. cbv zeta. eexists. split; [reflexivity | ].
  unfold strip_hyphens.
  match goal with |- context [hyphenate false ?s] => set (text := s) end.
  destruct (hyphenate_shape false text) as (F & S & _).
  assert (L : string_forall is_slug_or_hyphen (strip_leading_hyphen (hyphenate false text)) = true
              /\ hyphens_single (strip_leading_hyphen (hyphenate false text)) = true
              /\ starts_with_hyphen (strip_leading_hyphen (hyphenate false text)) = false).
  { rewrite strip_leading_hyphen_eq.
    destruct (hyphenate false text) as [ | c t]; [auto | ].
    cbn [string_forall hyphens_single] in F, S.
    apply andb_prop in F. destruct F as [Fc Ft].
    apply andb_prop in S. destruct S as [Sc St].
    destruct (Ascii.eqb c "-") eqn:E.
    - simpl in Sc. apply negb_true_iff in Sc. auto.
    - cbn [string_forall hyphens_single starts_with_hyphen].
      rewrite Fc, Ft, St, E. auto. }
  destruct L as (F1 & S1 & N1).
  destruct (strip_trailing_hyphen_shape _ F1 S1) as (F2 & S2 & N2 & E2).
  auto.
Qed.

(** ** What the normalizer can return *)




(** X7. Two texts that differ in the case of letters only, neither of them
    a key of the table or a member name of [Object.prototype], get the same
    result. *)
Theorem normalizeValue_ignores_case (value value' : string) (map : table) :
  JsString.toLowerCase value = JsString.toLowerCase value' ->
  get_property map value = None ->
  get_property map value' = None ->
  normalizeValue (Some value) map = normalizeValue (Some value') map.
Proof.
  intros Low G G'. unfold normalizeValue. rewrite G, G', Low.
  destruct value, value'; try discriminate Low; reflexivity.
Qed.

Lemma normalizeValue_ignores_case_witness :
  JsString.toLowerCase "SCHALTGETRIEBE" = JsString.toLowerCase "schaltgetriebe"
  /\ get_property gearboxMap "SCHALTGETRIEBE" = None
  /\ get_property gearboxMap "schaltgetriebe" = None
  /\ normalizeValue (Some "SCHALTGETRIEBE") gearboxMap
     = normalizeValue (Some "schaltgetriebe") gearboxMap.
Proof.
  assert (L : JsString.toLowerCase "SCHALTGETRIEBE" = JsString.toLowerCase "schaltgetriebe")
    by reflexivity.
  assert (G : get_property gearboxMap "SCHALTGETRIEBE" = None) by reflexivity.
  assert (G' : get_property gearboxMap "schaltgetriebe" = None) by reflexivity.
  split; [exact L | split; [exact G | split; [exact G' | ]]].
  exact (normalizeValue_ignores_case _ _ gearboxMap L G G').
Defined.

(** ** The power parser *)

Lemma leading_digits_split (s : string) :
  s = leading_digits s ++ JsString.drop (String.length (leading_digits s)) s
  /\ is_digits (leading_digits s) = true.
Proof.
  induction s as [ | c t IH]; [split; reflexivity | ].
  cbn [leading_digits]. destruct (JsString.is_digit c) eqn:D; [ | split; reflexivity].
  destruct IH as [E Dg]. cbn [String.length JsString.drop is_digits].
  rewrite append_cons, <- E, D, Dg. split; reflexivity.
Qed.

Lemma trimStart_split (s : string) :
  exists ws, s = ws ++ JsString.trimStart s /\ string_forall JsString.is_space ws = true.
Proof.
  induction s as [ | c t IH]; [exists ""; split; reflexivity | ].
  cbn [JsString.trimStart]. destruct (JsString.is_space c) eqn:Sp.
  - destruct IH as (ws & E & F). exists (String c ws).
    rewrite append_cons, <- E. cbn [string_forall]. rewrite Sp, F. split; reflexivity.
  - exists "". split; reflexivity.
Qed.




Section Unit.
Variables (u : ascii) (unit' : string).
Hypothesis u_not_digit : JsString.is_digit u = false.
Hypothesis u_not_space : JsString.is_space u = false.
Let unit : string := String u unit'.





End Unit.



(** ** Make and model against the title *)




(** ** The colour parser *)

Lemma match_metallic_includes (s rest : string) :
  match_metallic s = Some rest ->
  JsString.includes (JsString.toLowerCase s) "metallic" = true.
Proof.
  unfold match_metallic. cbv zeta.
  destruct (String.prefix "metallic" _) eqn:P; [ | discriminate]. intros _.
  apply prefix_spec in P. destruct P as (post & P).
  destruct (trimStart_split s) as (ws & E & _).
  apply includes_spec. exists (JsString.toLowerCase ws), post.
  rewrite <- P, <- toLowerCase_app, <- E. reflexivity.
Qed.

Lemma remove_metallic_id (s : string) :
  JsString.includes (JsString.toLowerCase s) "metallic" = false -> remove_metallic s = s.
Proof.
  induction s as [ | c t IH]; intros N.
  - reflexivity.
  - unfold remove_metallic; fold remove_metallic.
    destruct (match_metallic (String c t)) as [rest | ] eqn:M.
    + rewrite (match_metallic_includes _ _ M) in N. discriminate N.
    + rewrite IH; [reflexivity | ].
      cbn [JsString.toLowerCase JsString.includes] in N.
      apply orb_false_iff in N. exact (proj2 N).
Qed.

(** X10. [parseColor] sets [metallic] exactly when the text contains
    "metallic", whatever the case of its letters; and where the text does
    not contain it, the colour is the normalization of the trimmed text. *)
Theorem parseColor_metallic_flag (s : string) :
  ((parseColor (Some s)).2 = true <-> contains_ignoring_case s "metallic")
  /\ ((parseColor (Some s)).2 = false ->
      (parseColor (Some s)).1 = normalizeValue (Some (JsString.trim s)) colorMap).
Proof.
  rewrite <- (includes_toLowerCase s "metallic" eq_refl).
  destruct s as [ | c t].
  - split; [split; discriminate | reflexivity].
  - unfold parseColor. cbn [JsString.truthy negb fst snd].
    split; [reflexivity | ].
    intros N. rewrite (remove_metallic_id _ N). reflexivity.
Qed.

(** * Further properties of the run *)

(** ** The fields of an assembled listing *)

Section FieldProperties.
Context {W : Type} {outside : Collaborators W}.


End FieldProperties.





(** ** The images of a listing *)

(** X12. An assembled listing has at most ten images and never more than
    the page showed; they are public URLs of files [<slug>/<i>.webp] under
    the slug of the listing, with [i] below ten, in rising order of [i];
    and [imagesUploaded] grows by exactly the number of images of the
    listing. *)
Theorem listing_images_bounded
        {W : Type} {outside : Collaborators W} url config known (st st' : state W) listing :
  scrapeListingDetails url config known st = (Returned (Scraped listing), st') ->
  exists rawData w,
    listing_page url (world st) = (Returned rawData, w)
    /\ length (Listing.images listing) <= 10
    /\ length (Listing.images listing) <= length (Raw.images rawData)
    /\ sublist (Listing.images listing)
               (map (fun i => public_url (image_file (Listing.slug listing) i))
                    (seq 0 (Nat.min (length (Raw.images rawData)) 10)))
    /\ (forall image, In image (Listing.images listing) ->
        exists i, i < 10 /\ i < length (Raw.images rawData)
                  /\ image = public_url (image_file (Listing.slug listing) i))
    /\ SyncLog.imagesUploaded (syncLog st')
       = SyncLog.imagesUploaded (syncLog st) + length (Listing.images listing).
Proof.
  intros S. apply scrapeListingDetails_images in S.
  destruct S as (rawData & w & tr & Page & _ & _ & Sub & Cnt & _).
  exists rawData, w. split; [exact Page | ].
  pose proof (sublist_length _ _ Sub) as L. rewrite length_map, length_seq in L.
  split; [lia | split; [lia | split; [exact Sub | split; [ | exact Cnt]]]].
  intros image I. apply list_elem_of_In in I.
  pose proof (sublist_submseteq _ _ Sub) as Sm.
  apply (elem_of_submseteq _ _ _ I) in Sm.
  apply list_elem_of_In, in_map_iff in Sm. destruct Sm as (i & E & Ii).
  apply in_seq in Ii. exists i. split; [lia | split; [lia | congruence]].
Qed.

Lemma listing_images_bounded_witness :
  exists (listing : Listing.t) (st' : state unit),
    scrapeListingDetails (outside:=Demo.collaborators Demo.flaky) Demo.id3
                         (Demo.config 100 200 []) ∅ Demo.start
    = (Returned (Scraped listing), st')
    /\ length (Listing.images listing) <= 10.
Proof.
  destruct (scrapeListingDetails (outside:=Demo.collaborators Demo.flaky) Demo.id3
                                 (Demo.config 100 200 []) ∅ Demo.start)
    as [[[t | listing] | e] st'] eqn:S;
    try (vm_compute in S; discriminate S).
  exists listing, st'. split; [reflexivity | ].
  destruct (listing_images_bounded _ _ _ _ _ _ S) as (rawData & w & _ & L & _).
  exact L.
Defined.

(** ** The accounts of the report *)

Section Accounting.
Context {W : Type} {outside : Collaborators W}.

Lemma scrapeListingDetails_keeps {X} (f : SyncLog.t -> X) url config known :
  (forall l, f (SyncLog.incr_images l) = f l) ->
  keeps f (scrapeListingDetails (W:=W) url config known).
Proof.
  intros Hf. unfold scrapeListingDetails.
  apply keeps_bind; [script | intros rawData].
  destruct (parseMakeModel _) as [make model].
  apply keeps_bind; [script | intros [ | ]].
  - script.
  - destruct (parseColor _), (parseInterior _), (parsePower _).
    apply keeps_bind; [script | intros random].
    apply keeps_bind; [ | intros imageUrls; script].
    apply image_loop_keeps. exact Hf.
Qed.

Lemma main_insert_accounts allListings (st : state W) :
  exists st' failed,
    main_insert allListings st = (Returned tt, st')
    /\ SyncLog.errors (syncLog st') = (SyncLog.errors (syncLog st) ++ failed)%list
    /\ Forall (fun e => exists message listing,
                   In listing allListings
                   /\ e = SyncLog.InsertError message (Listing.slug listing)) failed
    /\ SyncLog.listingsNew (syncLog st') + length failed
       = SyncLog.listingsNew (syncLog st) + length allListings
    /\ SyncLog.listingsFound (syncLog st') = SyncLog.listingsFound (syncLog st)
    /\ SyncLog.listingsSkipped (syncLog st') = SyncLog.listingsSkipped (syncLog st)
    /\ SyncLog.imagesUploaded (syncLog st') = SyncLog.imagesUploaded (syncLog st)
    /\ SyncLog.dealers (syncLog st') = SyncLog.dealers (syncLog st).
Proof.
  revert st. induction allListings as [ | l rest IH]; intros st.
  - exists st, []. simpl. rewrite app_nil_r. repeat split; constructor.
  - simpl. unfold insertListing, bind, perform, log_update, ret. simpl.
    destruct (insert_row l (world st)) as [[id | message] w]; simpl.
    + match goal with
      | |- context [main_insert rest ?s] =>
          destruct (IH s) as (st' & failed & Run & E & F & N & Kf & Ks & Ki & Kd)
      end.
      exists st', failed. rewrite Run. simpl in *.
      split; [reflexivity | split; [exact E | split; [ | repeat split; try assumption; lia]]].
      revert F. apply List.Forall_impl. intros e (m & x & I & ->).
      exists m, x. auto.
    + match goal with
      | |- context [main_insert rest ?s] =>
          destruct (IH s) as (st' & failed & Run & E & F & N & Kf & Ks & Ki & Kd)
      end.
      exists st', (SyncLog.InsertError message (Listing.slug l) :: failed).
      rewrite Run. simpl in *.
      split; [reflexivity | ].
      split; [rewrite E, <- app_assoc; reflexivity | ].
      split; [ | repeat split; try assumption; lia].
      constructor; [exists message, l; auto | ].
      revert F. apply List.Forall_impl. intros e (m & x & I & ->).
      exists m, x. auto.
Qed.



End Accounting.



(** ** The roster of dealers *)

Section Roster.
Context {W : Type} {outside : Collaborators W}.





End Roster.




(** ** A run over pages that are all known *)

Section Settled.
Context {W : Type} {outside : Collaborators W}.
Variable known : gset string.
Hypothesis all_known :
  forall url w rawData w',
    listing_page url w = (Returned rawData, w') -> fingerprint_of rawData ∈ known.

Lemma scrapeDealer_round_settled url config listings (st : state W) :
  exists st' tr,
    scrapeDealer_round url config known listings st = (Returned listings, st')
    /\ SyncLog.listingsNew (syncLog st') = SyncLog.listingsNew (syncLog st)
    /\ SyncLog.imagesUploaded (syncLog st') = SyncLog.imagesUploaded (syncLog st)
    /\ trace st' = (trace st ++ tr)%list
    /\ Forall reading_call tr.
Proof.
  unfold scrapeDealer_round, try_catch, bind at 1.
  destruct (listing_page url (world st)) as [[rawData | e] w] eqn:Page.
  - rewrite (scrapeListingDetails_known _ config _ _ _ _ Page (all_known _ _ _ _ Page)).
    unfold bind, log_update, ret. simpl.
    eexists _, _. split; [reflexivity | ]. simpl.
    repeat split. repeat constructor.
  - unfold scrapeListingDetails, bind, await. rewrite Page.
    unfold log_update, ret. simpl.
    eexists _, _. split; [reflexivity | ]. simpl.
    repeat split. repeat constructor.
Qed.

Lemma scrapeDealer_loop_settled urls config listings (st : state W) :
  exists st' tr,
    scrapeDealer_loop urls config known listings st = (Returned listings, st')
    /\ SyncLog.listingsNew (syncLog st') = SyncLog.listingsNew (syncLog st)
    /\ SyncLog.imagesUploaded (syncLog st') = SyncLog.imagesUploaded (syncLog st)
    /\ trace st' = (trace st ++ tr)%list
    /\ Forall reading_call tr.
Proof.
  revert st. induction urls as [ | url rest IH]; intros st; simpl.
  - exists st, []. rewrite app_nil_r. repeat split. constructor.
  - unfold bind.
    destruct (scrapeDealer_round_settled url config listings st)
      as (st1 & tr1 & R1 & N1 & I1 & T1 & F1).
    rewrite R1. destruct (IH st1) as (st2 & tr2 & R2 & N2 & I2 & T2 & F2).
    exists st2, (tr1 ++ tr2)%list. rewrite R2.
    split; [reflexivity | ].
    split; [congruence | split; [congruence | split]].
    + rewrite T2, T1, <- app_assoc. reflexivity.
    + apply Forall_app. auto.
Qed.

Lemma scrapeDealer_settled dealerUrl config (st : state W) :
  exists st' tr,
    scrapeDealer dealerUrl config known st = (Returned [], st')
    /\ SyncLog.listingsNew (syncLog st') = SyncLog.listingsNew (syncLog st)
    /\ SyncLog.imagesUploaded (syncLog st') = SyncLog.imagesUploaded (syncLog st)
    /\ trace st' = (trace st ++ tr)%list
    /\ Forall reading_call tr.
Proof.
  unfold scrapeDealer, try_catch, bind, await. cbv zeta.
  destruct (search_page (searchUrl_of dealerUrl) (world st)) as [[urls | e] w].
  - match goal with
    | |- context [scrapeDealer_loop ?u ?c ?k ?l ?s] =>
        destruct (scrapeDealer_loop_settled u c l s) as (st' & tr & R & N & I & T & F)
    end.
    rewrite R. exists st', (SearchPage (searchUrl_of dealerUrl) :: tr).
    simpl in *. split; [reflexivity | split; [exact N | split; [exact I | split]]].
    + rewrite T, <- app_assoc. reflexivity.
    + constructor; [exact Logic.I | exact F].
  - unfold log_update, ret. simpl. eexists _, _. split; [reflexivity | ]. simpl.
    repeat split. repeat constructor.
Qed.

Lemma main_dealers_settled dealers config (st : state W) :
  exists st' tr,
    main_dealers dealers config known [] st = (Returned [], st')
    /\ SyncLog.listingsNew (syncLog st') = SyncLog.listingsNew (syncLog st)
    /\ SyncLog.imagesUploaded (syncLog st') = SyncLog.imagesUploaded (syncLog st)
    /\ trace st' = (trace st ++ tr)%list
    /\ Forall reading_call tr.
Proof.
  revert st. induction dealers as [ | d rest IH]; intros st; simpl.
  - exists st, []. rewrite app_nil_r. repeat split. constructor.
  - unfold bind at 1. unfold log_update at 1. cbv iota beta.
    set (st1 := State (world st) (SyncLog.push_dealer d (syncLog st)) (trace st)).
    destruct (scrapeDealer_settled (Config.url d) config st1)
      as (st2 & tr1 & R & N1 & I1 & T1 & F1).
    unfold bind at 1. rewrite R. unfold bind at 1. unfold log_update at 1. cbv iota beta.
    set (st3 := State (world st2) (SyncLog.add_found (length (@nil Listing.t)) (syncLog st2))
                      (trace st2)).
    cbn [app length].
    destruct (_ <=? 0)%nat.
    + unfold ret. rewrite firstn_nil. exists st3, tr1. subst st3 st1. simpl in *. auto.
    + destruct (IH st3) as (st' & tr2 & R' & N2 & I2 & T2 & F2).
      rewrite R'. exists st', (tr1 ++ tr2)%list. subst st3 st1. simpl in *.
      split; [reflexivity | ].
      split; [congruence | split; [congruence | split]].
      * rewrite T2, T1, <- app_assoc. reflexivity.
      * apply Forall_app. auto.
Qed.

End Settled.

(** X17. A run over pages that are all known adds nothing: when every
    listing page that loads has its fingerprint among the rows that the
    database answers at the start, the run hands no listing to the
    insertion loop, processes and stores no image, inserts nothing, and
    leaves [listingsNew] and [imagesUploaded] as they were. *)
Theorem settled_run_adds_nothing
        {W : Type} {outside : Collaborators W} config env (st : state W) :
  Config.enabled (Config.the_settings config) = true ->
  (forall url w rawData w',
      listing_page url w = (Returned rawData, w') ->
      fingerprint_of rawData ∈ loaded_set (select_fingerprints (world st)).1) ->
  exists st' tr,
    main config env st = (Returned [], st')
    /\ SyncLog.listingsNew (syncLog st') = SyncLog.listingsNew (syncLog st)
    /\ SyncLog.imagesUploaded (syncLog st') = SyncLog.imagesUploaded (syncLog st)
    /\ trace st' = (trace st ++ tr)%list
    /\ Forall reading_call tr.
Proof.
  intros En Known. unfold main. rewrite En.
  change (negb true) with false. cbv iota.
  unfold bind at 1. rewrite getExistingFingerprints_run.
  set (known := loaded_set (select_fingerprints (world st)).1) in *.
  set (st1 := State (select_fingerprints (world st)).2 (syncLog st)
                    (trace st ++ [SelectFingerprints])).
  set (config' := override config env).
  destruct (main_dealers_settled known Known (Config.dealers config') config' st1)
    as (st2 & tr & R & N & I & T & F).
  unfold bind at 1. rewrite R.
  simpl main_insert. unfold bind, perform, log_update, ret.
  destruct (date_now (world st2)) as [now w3]. simpl.
  eexists _, (SelectFingerprints :: tr). split; [reflexivity | ]. simpl.
  subst st1. simpl in *.
  split; [exact N | split; [exact I | split]].
  - rewrite app_nil_r, T, <- app_assoc. reflexivity.
  - constructor; [exact Logic.I | exact F].
Qed.

Lemma settled_run_adds_nothing_witness :
  exists (st' : state unit) tr,
    main (outside:=Demo.collaborators settled)
         (Demo.config 2 3 [Config.Dealer "One" "https://home.mobile.de/ONE"])
         None Demo.start
    = (Returned [], st')
    /\ SyncLog.listingsNew (syncLog st') = SyncLog.listingsNew (syncLog Demo.start)
    /\ SyncLog.imagesUploaded (syncLog st') = SyncLog.imagesUploaded (syncLog Demo.start)
    /\ trace st' = (trace Demo.start ++ tr)%list
    /\ Forall reading_call tr.
Proof.
  apply (settled_run_adds_nothing (outside:=Demo.collaborators settled)).
  - reflexivity.
  - intros url w rawData w' Page.
    change ((Demo.pages url, w) = (Returned rawData, w')) in Page.
    injection Page as Page _. unfold Demo.pages in Page.
    repeat match type of Page with
           | context [String.eqb ?a ?b] => destruct (String.eqb a b)
           end;
      try discriminate Page;
      injection Page as <-;
      apply (proj2 (elem_of_list_to_set (C:=gset string) _
                      [fingerprint_of Demo.bmw_a; fingerprint_of Demo.audi]));
      apply list_elem_of_In; vm_compute; tauto.
Defined.

(** ** The override of the total cap *)

(** X18. The environment variable can change nothing of the configuration
    but [maxTotalListings], and it cannot set that to zero: after the
    override the cap is the old one or positive.  A variable that is not
    set, or set to the empty string, leaves the configuration as it is. *)
Theorem override_touches_only_the_total_cap (config : Config.t) (env : option string) :
  Config.dealers (override config env) = Config.dealers config
  /\ Config.maxListingsPerDealer (Config.the_settings (override config env))
     = Config.maxListingsPerDealer (Config.the_settings config)
  /\ Config.imageWidth (Config.the_settings (override config env))
     = Config.imageWidth (Config.the_settings config)
  /\ Config.imageHeight (Config.the_settings (override config env))
     = Config.imageHeight (Config.the_settings config)
  /\ Config.enabled (Config.the_settings (override config env))
     = Config.enabled (Config.the_settings config)
  /\ (Config.maxTotalListings (Config.the_settings (override config env))
      = Config.maxTotalListings (Config.the_settings config)
      \/ 0 < Config.maxTotalListings (Config.the_settings (override config env)))
  /\ override config None = config
  /\ override config (Some "") = config.
Proof.
  assert (Cases : override config env = config
                  \/ exists n, 0 < n
                               /\ override config env = Config.with_maxTotalListings n config).
  { unfold override. destruct (parseInt _) as [z | ]; [ | auto].
    destruct (0 <? z)%Z eqn:Pos; [ | auto].
    right. exists (Z.to_nat z). apply Z.ltb_lt in Pos. split; [lia | reflexivity]. }
  destruct Cases as [-> | (n & Pos & ->)].
  - repeat (split; [reflexivity | ]). split; [left; reflexivity | split; reflexivity].
  - repeat (split; [reflexivity | ]). split; [right; exact Pos | split; reflexivity].
Qed.

(** ** The search URL of a dealer *)




(** ** The extraction that runs in the page *)

Lemma NoDup_snoc {A} (l : list A) (x : A) : NoDup l -> ~ In x l -> NoDup (l ++ [x]).
Proof.
  induction 1 as [ | y l Hy Hl IH]; intros Hx; simpl.
  - constructor; [intros I; inversion I | constructor].
  - constructor.
    + intros I. apply list_elem_of_In, in_app_iff in I. destruct I as [I | [-> | []]].
      * apply Hy, list_elem_of_In, I.
      * apply Hx. left. reflexivity.
    + apply IH. intros I. apply Hx. right. exact I.
Qed.

Lemma match_listing_id_digits (s id : string) :
  match_listing_id s = Some id -> id <> "" /\ is_digits id = true.
Proof.
  unfold match_listing_id. destruct s as [ | c t]; [discriminate | ].
  destruct (_ && _); [ | discriminate].
  destruct (leading_digits_split (JsString.drop 3 t)) as [_ D].
  destruct (leading_digits (JsString.drop 3 t)); [discriminate | ].
  intros [= <-]. split; [discriminate | exact D].
Qed.

Lemma search_listing_id_digits (s id : string) :
  search_listing_id s = Some id -> id <> "" /\ is_digits id = true.
Proof.
  induction s as [ | c t IH]; unfold search_listing_id; fold search_listing_id.
  - destruct (match_listing_id "") eqn:M; [ | discriminate]. intros [= <-].
    exact (match_listing_id_digits _ _ M).
  - destruct (match_listing_id (String c t)) eqn:M.
    + intros [= <-]. exact (match_listing_id_digits _ _ M).
    + exact IH.
Qed.

Lemma listingUrls_loop_spec (all hrefs : list string) (seenIds : gset string)
      (urls : list ListingUrl.t) :
  (forall href, In href hrefs -> In href all) ->
  NoDup (map ListingUrl.id urls) ->
  (forall x, x ∈ seenIds <-> In x (map ListingUrl.id urls)) ->
  Forall (from_link all) urls ->
  NoDup (map ListingUrl.id (listingUrls_loop hrefs seenIds urls))
  /\ Forall (from_link all) (listingUrls_loop hrefs seenIds urls)
  /\ (forall x, In x (map ListingUrl.id urls) ->
                In x (map ListingUrl.id (listingUrls_loop hrefs seenIds urls)))
  /\ (forall href id, In href hrefs -> search_listing_id href = Some id ->
                      In id (map ListingUrl.id (listingUrls_loop hrefs seenIds urls)))
  /\ length (listingUrls_loop hrefs seenIds urls) <= length urls + length hrefs.
Proof.
  revert seenIds urls. induction hrefs as [ | href rest IH]; intros seenIds urls Sub ND Seen F.
  - simpl. repeat split; auto. intros href id []. lia.
  - assert (Sub' : forall h, In h rest -> In h all) by (intros h I; apply Sub; right; exact I).
    cbn [listingUrls_loop]. destruct (search_listing_id href) as [i | ] eqn:S.
    + destruct (bool_decide (i ∈ seenIds)) eqn:B.
      * apply bool_decide_eq_true in B.
        destruct (IH seenIds urls Sub' ND Seen F) as (R1 & R2 & R3 & R4 & R5).
        repeat split; auto.
        -- intros h id [<- | I] Sh; [ | exact (R4 h id I Sh)].
           rewrite S in Sh. injection Sh as <-. apply R3, Seen, B.
        -- simpl. lia.
      * apply bool_decide_eq_false in B.
        set (u := ListingUrl.Make
                    ("https://suchen.mobile.de/fahrzeuge/details.html?id=" ++ i) i).
        assert (ND' : NoDup (map ListingUrl.id (urls ++ [u]))).
        { rewrite map_app. apply NoDup_snoc; [exact ND | ].
          intros I. apply B, Seen, I. }
        assert (Seen' : forall x, x ∈ ({[i]} ∪ seenIds : gset string)
                                  <-> In x (map ListingUrl.id (urls ++ [u]))).
        { intros x. rewrite elem_of_union, elem_of_singleton, map_app, in_app_iff, Seen.
          simpl. split; [intros [-> | I]; auto | intros [I | [<- | []]]; auto]. }
        assert (F' : Forall (from_link all) (urls ++ [u])).
        { apply Forall_app. split; [exact F | ]. constructor; [ | constructor].
          destruct (search_listing_id_digits _ _ S) as [N D].
          split; [reflexivity | split; [exact N | split; [exact D | ]]].
          exists href. split; [apply Sub; left; reflexivity | exact S]. }
        destruct (IH _ _ Sub' ND' Seen' F') as (R1 & R2 & R3 & R4 & R5).
        split; [exact R1 | split; [exact R2 | split; [ | split]]].
        -- intros x I. apply R3. rewrite map_app. apply in_or_app. left. exact I.
        -- intros h id [<- | I] Sh; [ | exact (R4 h id I Sh)].
           rewrite S in Sh. injection Sh as <-. apply R3.
           rewrite map_app. apply in_or_app. right. left. reflexivity.
        -- rewrite length_app in R5. simpl in *. lia.
    + destruct (IH seenIds urls Sub' ND Seen F) as (R1 & R2 & R3 & R4 & R5).
      repeat split; auto.
      * intros h id [<- | I] Sh; [congruence | exact (R4 h id I Sh)].
      * simpl. lia.
Qed.

(** X20. The listing URLs read from a search page carry no id twice; each
    is the canonical details address of its id, a number found in one of
    the links; and every link in which a number is found has that number
    among the ids. *)
Theorem listingUrls_distinct_and_canonical (hrefs : list string) :
  NoDup (map ListingUrl.id (listingUrls hrefs))
  /\ Forall (from_link hrefs) (listingUrls hrefs)
  /\ (forall href id, In href hrefs -> search_listing_id href = Some id ->
                      In id (map ListingUrl.id (listingUrls hrefs)))
  /\ length (listingUrls hrefs) <= length hrefs.
Proof.
  unfold listingUrls.
  destruct (listingUrls_loop_spec hrefs hrefs ∅ []) as (R1 & R2 & _ & R4 & R5).
  - auto.
  - constructor.
  - intros x. simpl. split; [intros I; exact (not_elem_of_empty x I) | intros []].
  - constructor.
  - simpl in R5. auto.
Qed.

Lemma length_append' (a b : string) :
  String.length (a ++ b) = String.length a + String.length b.
Proof. induction a as [ | c a IH]; [reflexivity | rewrite append_cons; simpl; lia]. Qed.

Lemma append_inv_tail (a b s : string) : a ++ s = b ++ s -> a = b.
Proof.
  revert b. induction a as [ | c a IH]; intros [ | d b] E.
  - reflexivity.
  - apply (f_equal String.length) in E. rewrite append_cons in E.
    cbn [String.length] in E. rewrite !length_append' in E. simpl in E. lia.
  - apply (f_equal String.length) in E. rewrite append_cons in E.
    cbn [String.length] in E. rewrite !length_append' in E. simpl in E. lia.
  - rewrite !append_cons in E. injection E as -> E. rewrite (IH b E). reflexivity.
Qed.

Lemma images_loop_spec (all srcs : list string) (seenImages : gset string)
      (images : list string) :
  (forall src, In src srcs -> In src all) ->
  NoDup images ->
  (forall b, b ∈ seenImages <-> In (b ++ "?rule=mo-1600") images) ->
  Forall (from_image all) images ->
  NoDup (images_loop srcs seenImages images)
  /\ Forall (from_image all) (images_loop srcs seenImages images)
  /\ (forall x, In x images -> In x (images_loop srcs seenImages images))
  /\ (forall src, In src srcs ->
                  JsString.includes src "img.classistatic.de/api/v1/mo-prod/images/" = true ->
                  In (base_of src ++ "?rule=mo-1600") (images_loop srcs seenImages images))
  /\ length (images_loop srcs seenImages images) <= length images + length srcs.
Proof.
  revert seenImages images.
  induction srcs as [ | src rest IH]; intros seenImages images Sub ND Seen F.
  - simpl. repeat split; auto. intros src []. lia.
  - assert (Sub' : forall h, In h rest -> In h all) by (intros h I; apply Sub; right; exact I).
    cbn [images_loop].
    destruct (JsString.includes src "img.classistatic.de/api/v1/mo-prod/images/") eqn:Inc;
      cbn [negb]; cbv zeta; fold (base_of src).
    + destruct (bool_decide (base_of src ∈ seenImages)) eqn:B.
      * apply bool_decide_eq_true in B.
        destruct (IH seenImages images Sub' ND Seen F) as (R1 & R2 & R3 & R4 & R5).
        repeat split; auto.
        -- intros h [<- | I] Ih; [ | exact (R4 h I Ih)]. apply R3, Seen, B.
        -- simpl. lia.
      * apply bool_decide_eq_false in B.
        assert (ND' : NoDup (images ++ [base_of src ++ "?rule=mo-1600"])).
        { apply NoDup_snoc; [exact ND | ]. intros I. apply B, Seen, I. }
        assert (Seen' : forall b, b ∈ ({[base_of src]} ∪ seenImages : gset string)
                                  <-> In (b ++ "?rule=mo-1600")
                                         (images ++ [base_of src ++ "?rule=mo-1600"])).
        { intros b. rewrite elem_of_union, elem_of_singleton, in_app_iff, Seen.
          simpl. split.
          - intros [-> | I]; auto.
          - intros [I | [E | []]]; [auto | left].
            symmetry. exact (append_inv_tail _ _ _ E). }
        assert (F' : Forall (from_image all) (images ++ [base_of src ++ "?rule=mo-1600"])).
        { apply Forall_app. split; [exact F | ]. constructor; [ | constructor].
          exists src. split; [apply Sub; left; reflexivity | split; [exact Inc | reflexivity]]. }
        destruct (IH _ _ Sub' ND' Seen' F') as (R1 & R2 & R3 & R4 & R5).
        split; [exact R1 | split; [exact R2 | split; [ | split]]].
        -- intros x I. apply R3. apply in_or_app. left. exact I.
        -- intros h [<- | I] Ih; [ | exact (R4 h I Ih)].
           apply R3. apply in_or_app. right. left. reflexivity.
        -- rewrite length_app in R5. simpl in *. lia.
    + destruct (IH seenImages images Sub' ND Seen F) as (R1 & R2 & R3 & R4 & R5).
      repeat split; auto.
      * intros h [<- | I] Ih; [congruence | exact (R4 h I Ih)].
      * simpl. lia.
Qed.

Lemma base_of_split (src : string) :
  string_forall (fun c => negb (Ascii.eqb c "?")) (base_of src) = true
  /\ (src = base_of src \/ exists rest, src = base_of src ++ "?" ++ rest).
Proof.
  unfold base_of. induction src as [ | c t IH]; [split; [reflexivity | left; reflexivity] | ].
  cbn [split]. destruct (Ascii.eqb c "?") eqn:E.
  - apply Ascii.eqb_eq in E. subst c. split; [reflexivity | ].
    right. exists t. reflexivity.
  - pose proof (split_not_nil "?" t) as NN.
    destruct (split "?" t) as [ | h r]; [contradiction | ].
    simpl in IH |- *. rewrite E. destruct IH as [Fh [Eq | (rest & Eq)]].
    + split; [exact Fh | left; congruence].
    + split; [exact Fh | right]. exists rest. rewrite Eq at 1. reflexivity.
Qed.

(** X21. The images read from a listing page are pairwise different; each
    is the part before the first question mark of a source on the image
    server, followed by [?rule=mo-1600]; every source on the image server
    is represented; and that part contains no question mark and begins
    the source. *)
Theorem pageImages_distinct_and_rewritten (srcs : list string) :
  NoDup (pageImages srcs)
  /\ Forall (from_image srcs) (pageImages srcs)
  /\ (forall src, In src srcs ->
                  JsString.includes src "img.classistatic.de/api/v1/mo-prod/images/" = true ->
                  In (base_of src ++ "?rule=mo-1600") (pageImages srcs))
  /\ length (pageImages srcs) <= length srcs
  /\ (forall src,
         string_forall (fun c => negb (Ascii.eqb c "?")) (base_of src) = true
         /\ (src = base_of src \/ exists rest, src = base_of src ++ "?" ++ rest)).
Proof.
  unfold pageImages.
  destruct (images_loop_spec srcs srcs ∅ []) as (R1 & R2 & _ & R4 & R5).
  - auto.
  - constructor.
  - intros x. simpl. split; [intros I; exact (not_elem_of_empty x I) | intros []].
  - constructor.
  - simpl in R5. repeat split; auto; apply base_of_split.
Qed.

(** ** The title of a listing page *)

Lemma trimStart_head (s : string) :
  JsString.trimStart s = ""
  \/ exists c t, JsString.trimStart s = String c t /\ JsString.is_space c = false.
Proof.
  induction s as [ | c t IH]; [left; reflexivity | ].
  cbn [JsString.trimStart]. destruct (JsString.is_space c) eqn:Sp; [exact IH | ].
  right. exists c, t. auto.
Qed.

Lemma trimEnd_head (c : ascii) (t : string) :
  JsString.is_space c = false -> exists t', JsString.trimEnd (String c t) = String c t'.
Proof.
  intros Sp. cbn [JsString.trimEnd]. destruct (JsString.trimEnd t) as [ | d t'].
  - rewrite Sp. exists "". reflexivity.
  - exists (String d t'). reflexivity.
Qed.

Lemma trimEnd_split (s : string) :
  exists ws, s = JsString.trimEnd s ++ ws.
Proof.
  induction s as [ | c t IH]; [exists ""; reflexivity | ].
  destruct IH as (ws & E). cbn [JsString.trimEnd].
  destruct (JsString.trimEnd t) as [ | d t'].
  - destruct (JsString.is_space c).
    + exists (String c t). reflexivity.
    + exists ws. rewrite append_cons, <- E. reflexivity.
  - exists ws. rewrite append_cons, <- E. reflexivity.
Qed.

Lemma trim_head (s : string) :
  JsString.trim s = ""
  \/ exists c t, JsString.trim s = String c t /\ JsString.is_space c = false.
Proof.
  unfold JsString.trim.
  destruct (trimStart_head s) as [-> | (c & t & -> & Sp)]; [left; reflexivity | ].
  right. destruct (trimEnd_head c t Sp) as (t' & ->). exists c, t'. auto.
Qed.

Lemma trim_inside (s : string) : exists ws ws', s = ws ++ JsString.trim s ++ ws'.
Proof.
  unfold JsString.trim.
  destruct (trimStart_split s) as (ws & E & _).
  destruct (trimEnd_split (JsString.trimStart s)) as (ws' & E').
  exists ws, ws'. rewrite <- E'. exact E.
Qed.

Lemma before_first_split (sep s : string) : exists rest, s = before_first sep s ++ rest.
Proof.
  induction s as [ | c t IH]; cbn [before_first].
  - exists "". destruct (String.prefix sep ""); reflexivity.
  - destruct (String.prefix sep (String c t)); [exists (String c t); reflexivity | ].
    destruct IH as (rest & E). exists rest. rewrite append_cons, <- E. reflexivity.
Qed.

Lemma before_first_free (sep s : string) :
  sep <> "" -> JsString.includes (before_first sep s) sep = false.
Proof.
  intros NE. assert (P0 : String.prefix sep "" = false) by (destruct sep; [exfalso; apply NE; reflexivity | reflexivity]).
  induction s as [ | c t IH]; cbn [before_first].
  - rewrite P0. cbn [JsString.includes]. rewrite P0. reflexivity.
  - destruct (String.prefix sep (String c t)) eqn:P.
    + cbn [JsString.includes]. rewrite P0. reflexivity.
    + cbn [JsString.includes]. rewrite IH, orb_false_r.
      destruct (String.prefix sep (String c (before_first sep t))) eqn:Q; [ | reflexivity].
      destruct (proj1 (prefix_spec _ _) Q) as (post & E).
      destruct (before_first_split sep t) as (rest & Et).
      assert (P' : String.prefix sep (String c t) = true).
      { apply prefix_spec. exists (post ++ rest).
        rewrite Et at 1. rewrite <- append_cons, E, string_app_assoc. reflexivity. }
      congruence.
Qed.

Lemma includes_inside (a b c p : string) :
  JsString.includes b p = true -> JsString.includes (a ++ b ++ c) p = true.
Proof.
  intros I. destruct (proj1 (includes_spec _ _) I) as (pre & post & ->).
  apply includes_spec. exists (a ++ pre), (post ++ c).
  rewrite !string_app_assoc. reflexivity.
Qed.

Lemma knownMakes_not_empty : Forall (fun make => make <> "") knownMakes.
Proof. unfold knownMakes. repeat (constructor; [discriminate | ]). constructor. Qed.

(** X22. The title taken from the document never contains the word at
    which it is cut, and carries no white space at its start.  Whenever it
    is not empty, [parseMakeModel] gives it a make that is not empty. *)
Theorem pageTitle_gives_a_make (documentTitle : string) :
  JsString.includes (pageTitle documentTitle) ("f" ++ String JsString.u_uml "r") = false
  /\ ((pageTitle documentTitle = ""
       /\ parseMakeModel (Some (pageTitle documentTitle)) = (None, None))
      \/ exists c t make model,
           pageTitle documentTitle = String c t
           /\ JsString.is_space c = false
           /\ parseMakeModel (Some (pageTitle documentTitle)) = (Some make, Some model)
           /\ make <> "").
Proof.
  split.
  - unfold pageTitle.
    destruct (JsString.includes (JsString.trim _) _) eqn:I; [ | reflexivity].
    destruct (trim_inside (before_first ("f" ++ String JsString.u_uml "r") documentTitle))
      as (ws & ws' & E).
    pose proof (includes_inside ws _ ws' _ I) as I'. rewrite <- E in I'.
    rewrite before_first_free in I' by discriminate. discriminate I'.
  - unfold pageTitle.
    destruct (trim_head (before_first ("f" ++ String JsString.u_uml "r") documentTitle))
      as [-> | (c & t & -> & Sp)]; [left; split; reflexivity | ].
    right. unfold parseMakeModel. cbn [JsString.truthy negb].
    rewrite parseMakeModel_loop_find.
    destruct (find (JsString.startsWith (String c t)) knownMakes) as [known | ] eqn:F.
    + exists c, t, known, (JsString.trim (JsString.drop (String.length known) (String c t))).
      repeat split; auto.
      apply find_some in F. destruct F as [I _].
      exact (proj1 (List.Forall_forall _ _) knownMakes_not_empty _ I).
    + rewrite head_split_space.
      exists c, t, (before_space (String c t)), (join " " (tail (split " " (String c t)))).
      repeat split; auto.
      cbn [before_space]. destruct (Ascii.eqb c " ") eqn:E; [ | discriminate].
      apply Ascii.eqb_eq in E. subst c. discriminate Sp.
Qed.

(** ** A run without the known fingerprints *)

Section NothingKnown.
Context {W : Type} {outside : Collaborators W}.

Lemma scrapeListingDetails_Skipped url config known (st st' : state W) title :
  scrapeListingDetails url config known st = (Returned (Skipped title), st') ->
  exists rawData w,
    listing_page url (world st) = (Returned rawData, w) /\ fingerprint_of rawData ∈ known.
Proof.
  unfold scrapeListingDetails, fingerprint_of, bind, await, perform. simpl.
  destruct (listing_page url (world st)) as [[rawData | e] w]; [ | discriminate].
  destruct (parseMakeModel (Raw.title rawData)) as [make model] eqn:PM. simpl.
  destruct (bool_decide _) eqn:B.
  - intros _. exists rawData, w. split; [reflexivity | ].
    apply bool_decide_eq_true in B. rewrite PM. exact B.
  - destruct (parseColor _), (parseInterior _), (parsePower _).
    simpl. destruct (random_hex w) as [random w1]. simpl.
    destruct (image_loop _ _ _ _ _ _ _) as [[imageUrls | e] st2]; [ | discriminate].
    simpl. destruct (date_now (world st2)) as [now w3]. discriminate.
Qed.

Lemma scrapeDealer_round_nothing_known url config listings :
  keeps SyncLog.listingsSkipped (scrapeDealer_round (W:=W) url config ∅ listings).
Proof.
  intros st. unfold scrapeDealer_round, try_catch, bind.
  pose proof (scrapeListingDetails_keeps SyncLog.listingsSkipped url config ∅
                ltac:(reflexivity) st) as K.
  destruct (scrapeListingDetails url config ∅ st) as [[[t | l] | e] st1] eqn:S;
    simpl in K; unfold log_update, ret; simpl.
  - apply scrapeListingDetails_Skipped in S. destruct S as (rawData & w & _ & In).
    exfalso. exact (not_elem_of_empty _ In).
  - exact K.
  - exact K.
Qed.

Lemma scrapeDealer_loop_nothing_known urls config listings :
  keeps SyncLog.listingsSkipped (scrapeDealer_loop (W:=W) urls config ∅ listings).
Proof.
  revert listings. induction urls as [ | url rest IH]; intros listings; simpl.
  - script.
  - apply keeps_bind; [apply scrapeDealer_round_nothing_known | intros a; apply IH].
Qed.

Lemma scrapeDealer_nothing_known dealerUrl config :
  keeps SyncLog.listingsSkipped (scrapeDealer (W:=W) dealerUrl config ∅).
Proof.
  unfold scrapeDealer. cbv zeta.
  apply keeps_try_catch; [ | intros e; script].
  apply keeps_bind; [script | intros urls]. apply scrapeDealer_loop_nothing_known.
Qed.

Lemma main_dealers_nothing_known dealers config allListings :
  keeps SyncLog.listingsSkipped (main_dealers (W:=W) dealers config ∅ allListings).
Proof.
  revert allListings. induction dealers as [ | d rest IH]; intros allListings; simpl.
  - script.
  - apply keeps_bind; [script | intros _].
    apply keeps_bind; [apply scrapeDealer_nothing_known | intros listings].
    apply keeps_bind; [script | intros _].
    destruct (_ <=? _)%nat; [script | apply IH].
Qed.

End NothingKnown.

(** X23. When the query for the known fingerprints fails, the run goes on
    with an empty set: it does not throw, every membership test is made on
    the empty set, and no page is skipped, so that [listingsSkipped] stays
    as it was. *)
Theorem failed_query_skips_nothing
        {W : Type} {outside : Collaborators W} config env (st : state W) message w :
  Config.enabled (Config.the_settings config) = true ->
  select_fingerprints (world st) = (Error message, w) ->
  exists allListings st' tr,
    main config env st = (Returned allListings, st')
    /\ SyncLog.listingsSkipped (syncLog st') = SyncLog.listingsSkipped (syncLog st)
    /\ trace st' = (trace st ++ tr)%list
    /\ Forall tests_empty_set tr.
Proof.
  intros En Query. unfold main. rewrite En.
  change (negb true) with false. cbv iota.
  unfold bind at 1. rewrite getExistingFingerprints_run. rewrite Query.
  cbn [fst snd loaded_set].
  set (st1 := State w (syncLog st) (trace st ++ [SelectFingerprints])).
  set (config' := override config env).
  destruct (main_dealers_never_throws (Config.dealers config') config' ∅ [] st1)
    as (allListings & Ret).
  destruct (main_dealers_emits (Config.dealers config') config' ∅ [] st1)
    as (tr & Tr & Ftr).
  pose proof (main_dealers_nothing_known (Config.dealers config') config' [] st1) as K.
  unfold bind at 1.
  destruct (main_dealers (Config.dealers config') config' ∅ [] st1) as [r1 st2].
  simpl in Ret, Tr, K. subst r1.
  destruct (main_insert_accounts allListings st2)
    as (st3 & failed & Ins & _ & _ & _ & _ & Ks & _).
  destruct (main_insert_trace allListings st2) as (st3' & Ins' & Tr3).
  rewrite Ins in Ins'. injection Ins' as <-.
  unfold bind at 1. rewrite Ins.
  unfold bind, perform, log_update, ret.
  destruct (date_now (world st3)) as [now w4]. simpl.
  eexists allListings, _, (SelectFingerprints :: tr ++ map InsertListing allListings)%list.
  split; [reflexivity | ]. simpl.
  split; [rewrite Ks, K; reflexivity | split].
  - rewrite app_nil_r, Tr3, Tr. subst st1. simpl. rewrite <- !app_assoc. reflexivity.
  - constructor; [exact I | ]. apply Forall_app. split.
    + revert Ftr. apply List.Forall_impl. intros c; destruct c; simpl; tauto.
    + clear. induction allListings as [ | l ls IH]; simpl; constructor; [exact I | exact IH].
Qed.

Lemma failed_query_skips_nothing_witness :
  exists (allListings : list Listing.t) (st' : state unit) tr,
    main (outside:=Demo.collaborators offline)
         (Demo.config 2 3 [Config.Dealer "One" "https://home.mobile.de/ONE"])
         None Demo.start
    = (Returned allListings, st')
    /\ SyncLog.listingsSkipped (syncLog st') = SyncLog.listingsSkipped (syncLog Demo.start)
    /\ trace st' = (trace Demo.start ++ tr)%list
    /\ Forall tests_empty_set tr.
Proof.
  apply (failed_query_skips_nothing (outside:=Demo.collaborators offline)
                                    _ _ _ "connection refused" tt);
    reflexivity.
Defined.
